(** * ArCTIC trap managers: watermark bookkeeping of the instant-capture
    algorithm (src/src/trap_managers.cpp) and the helpers of src/src/util.cpp.

    Numbers.  The C++ code computes with [double].  The embedding idealises
    a finite double as an exact rational ([Q], kept in lowest terms by the
    operations of [double_scope]); rounding is not modelled.
    The runs of [manager_16] evaluated below use dyadic values only, for
    which the double operations of the source are exact; in the runs of
    [manager_2048] the volumes are dyadic, the fills are not, and the
    comparisons that the code makes are far from a tie or between values
    that the double operations compute exactly.
    The only place where the source can leave the finite numbers is the
    unguarded quotient [enough = n_free_electrons / n_captured]; its IEEE
    outcomes are kept apart in [quotient].
    [set_fill_probabilities_from_dwell_time] calls [exp] and is embedded
    over the real numbers.
    Whether the loop of [arange] ends is decided by rounding; for that
    question [arange_double] runs the loop on binary64 numbers.

    Arrays.  [std::valarray<double>] becomes [list Q]; [operator[]] does no
    bounds check in C++ (an access outside the array is undefined
    behaviour), which the embedding reports as [OutOfRange].

    Integers.  [int] indices become [Z]; they stay far below 2^31. *)

From Stdlib Require Import PrimFloat.
From Stdlib Require Import QArith ZArith Lia Reals Lra Psatz.
From stdpp Require Import base list.

Local Open Scope Z_scope.

(** ** Results of array accesses and of the quotient *)

Inductive result (A : Type) : Type :=
| Ok (a : A)
| OutOfRange
| NotFinite.
Arguments Ok {A} a.
Arguments OutOfRange {A}.
Arguments NotFinite {A}.

Definition bind {A B : Type} (r : result A) (k : A -> result B) : result B :=
  match r with
  | Ok a => k a
  | OutOfRange => OutOfRange
  | NotFinite => NotFinite
  end.

Notation "'let*' x ':=' r 'in' k" := (bind r (fun x => k))
  (at level 10, x pattern, r at level 100, k at level 200).

(** [a[i]] as an rvalue and [a[i] = x]. *)
Definition rd (a : list Q) (i : Z) : result Q :=
  if i <? 0 then OutOfRange
  else match a !! Z.to_nat i with
       | Some x => Ok x
       | None => OutOfRange
       end.

Definition wr (a : list Q) (i : Z) (x : Q) : result (list Q) :=
  if i <? 0 then OutOfRange
  else if (Z.to_nat i <? length a)%nat then Ok (<[Z.to_nat i := x]> a)
       else OutOfRange.

(** [for (i = lo; ...; i++)] run [n] times, and [for (i = hi; ...; i--)]. *)
Fixpoint for_up {S : Type} (n : nat) (i : Z) (body : Z -> S -> result S) (s : S)
  : result S :=
  match n with
  | O => Ok s
  | Datatypes.S n' => let* s' := body i s in for_up n' (i + 1) body s'
  end.

Fixpoint for_down {S : Type} (n : nat) (i : Z) (body : Z -> S -> result S) (s : S)
  : result S :=
  match n with
  | O => Ok s
  | Datatypes.S n' => let* s' := body i s in for_down n' (i - 1) body s'
  end.

(** [a[std::slice(start, size, 1)] = f(a[std::slice(start, size, 1)])]; the
    size is converted to [size_t], so a negative one is far out of range. *)
Definition update_slice (a : list Q) (start size : Z) (f : Q -> Q) : result (list Q) :=
  if size <? 0 then OutOfRange
  else for_up (Z.to_nat size) start (fun i a' => let* x := rd a' i in wr a' i (f x)) a.

(** Arithmetic of doubles: exact, with every result kept in lowest terms, so
    that a value has one representation. *)
Definition double_add (a b : Q) : Q := Qred (a + b).
Definition double_sub (a b : Q) : Q := Qred (a - b).
Definition double_mul (a b : Q) : Q := Qred (a * b).
Definition double_div (a b : Q) : Q := Qred (a / b).

Declare Scope double_scope.
Delimit Scope double_scope with D.
Notation "a + b" := (double_add a b) : double_scope.
Notation "a - b" := (double_sub a b) : double_scope.
Notation "a * b" := (double_mul a b) : double_scope.
Notation "a / b" := (double_div a b) : double_scope.
Arguments double_add (a b)%_D.
Arguments double_sub (a b)%_D.
Arguments double_mul (a b)%_D.
Arguments double_div (a b)%_D.

(** Comparisons of doubles. *)
Definition Qlt_bool (a b : Q) : bool := negb (Qle_bool b a).

(** ** util.cpp *)

Definition clamp (value minimum maximum : Q) : Q :=
  if Qlt_bool value minimum then minimum
  else if Qlt_bool maximum value then maximum
  else value.

(** ** Data *)

(** Modelled from the spec: a trap species, whose declaration (traps.hpp) is
    not part of the sources.  The managers read three members of it:
    [density] in the watermark code, the two rates in
    [set_fill_probabilities_from_dwell_time]. *)
Record Trap : Type := {
  density : Q;
  capture_rate : R;
  emission_rate : R
}.

(** Modelled from the spec: the CCD, whose declaration (ccd.hpp) is not part
    of the sources.  The manager calls one method of it, taken here as a
    field. *)
Record CCD : Type := { cloud_fractional_volume_from_electrons : Q -> Q }.

(** Modelled from the spec: the missing [CCDPhase] volume function,
    [clamp(((n_e - notch) / (full_well - notch))^well_fill_power, 0, 1)], for
    [well_fill_power = 1]. *)
Definition linear_ccd (full_well_depth well_notch_depth : Q) : CCD :=
  {| cloud_fractional_volume_from_electrons := fun n_e =>
       clamp ((n_e - well_notch_depth) / (full_well_depth - well_notch_depth))%D 0 1 |}.

(** The four members that describe the watermarks, and which
    [store_trap_states] copies. *)
Record Watermarks : Type := {
  watermark_volumes : list Q;
  watermark_fills : list Q;
  n_active_watermarks : Z;
  i_first_active_wmk : Z
}.

Record TrapManager : Type := {
  traps : list Trap;
  max_n_transfers : Z;
  ccd : CCD;
  n_watermarks_per_transfer : Z;
  n_watermarks : Z;
  empty_probabilities_from_release : list Q;
  live : Watermarks;
  stored : Watermarks
}.

Definition n_traps (m : TrapManager) : Z := Z.of_nat (length (traps m)).
Definition empty_watermark : Q := 0%Q.

Definition set_live (m : TrapManager) (w : Watermarks) : TrapManager :=
  {| traps := traps m; max_n_transfers := max_n_transfers m; ccd := ccd m;
     n_watermarks_per_transfer := n_watermarks_per_transfer m;
     n_watermarks := n_watermarks m;
     empty_probabilities_from_release := empty_probabilities_from_release m;
     live := w; stored := stored m |}.

Definition set_volumes (w : Watermarks) (v : list Q) : Watermarks :=
  {| watermark_volumes := v; watermark_fills := watermark_fills w;
     n_active_watermarks := n_active_watermarks w;
     i_first_active_wmk := i_first_active_wmk w |}.

Definition set_fills (w : Watermarks) (f : list Q) : Watermarks :=
  {| watermark_volumes := watermark_volumes w; watermark_fills := f;
     n_active_watermarks := n_active_watermarks w;
     i_first_active_wmk := i_first_active_wmk w |}.

Definition set_n_active (w : Watermarks) (n : Z) : Watermarks :=
  {| watermark_volumes := watermark_volumes w; watermark_fills := watermark_fills w;
     n_active_watermarks := n;
     i_first_active_wmk := i_first_active_wmk w |}.

Definition set_i_first (w : Watermarks) (i : Z) : Watermarks :=
  {| watermark_volumes := watermark_volumes w; watermark_fills := watermark_fills w;
     n_active_watermarks := n_active_watermarks w;
     i_first_active_wmk := i |}.

(** ** TrapManager:: *)

Definition empty_array (n : Z) : list Q := replicate (Z.to_nat n) empty_watermark.

(** The constructor; the arrays are empty valarrays until
    [initialise_trap_states], and [n_watermarks] is not yet meaningful. *)
Definition TrapManager_new (ts : list Trap) (max_transfers : Z) (c : CCD) : TrapManager :=
  let w := {| watermark_volumes := []; watermark_fills := [];
              n_active_watermarks := 0; i_first_active_wmk := 0 |} in
  {| traps := ts; max_n_transfers := max_transfers; ccd := c;
     n_watermarks_per_transfer := 2; n_watermarks := 0;
     empty_probabilities_from_release := [];
     live := w; stored := w |}.

Definition store_trap_states (m : TrapManager) : TrapManager :=
  {| traps := traps m; max_n_transfers := max_n_transfers m; ccd := ccd m;
     n_watermarks_per_transfer := n_watermarks_per_transfer m;
     n_watermarks := n_watermarks m;
     empty_probabilities_from_release := empty_probabilities_from_release m;
     live := live m; stored := live m |}.

Definition restore_trap_states (m : TrapManager) : TrapManager :=
  set_live m (stored m).

Definition initialise_trap_states (m : TrapManager) : TrapManager :=
  let n := max_n_transfers m * n_watermarks_per_transfer m + 1 in
  let w := {| watermark_volumes := empty_array n;
              watermark_fills := empty_array (n_traps m * n);
              n_active_watermarks := n_active_watermarks (live m);
              i_first_active_wmk := i_first_active_wmk (live m) |} in
  store_trap_states
    {| traps := traps m; max_n_transfers := max_n_transfers m; ccd := ccd m;
       n_watermarks_per_transfer := n_watermarks_per_transfer m;
       n_watermarks := n;
       empty_probabilities_from_release := empty_probabilities_from_release m;
       live := w; stored := stored m |}.

Definition reset_trap_states (m : TrapManager) : TrapManager :=
  set_live m
    {| watermark_volumes := empty_array (n_watermarks m);
       watermark_fills := empty_array (n_traps m * n_watermarks m);
       n_active_watermarks := 0;
       i_first_active_wmk := 0 |}.

(** [traps[i_trap].density] *)
Definition density_at (ts : list Trap) (i_trap : Z) : result Q :=
  rd (map density ts) i_trap.

(** The sum over the active watermarks of one species' fill times the
    volume: the two slices, their product and [.sum()]. *)
Definition n_trapped_electrons_from_watermarks
    (m : TrapManager) (wmk_volumes wmk_fills : list Q) : result Q :=
  let w := live m in
  if n_active_watermarks w =? 0 then Ok 0%Q
  else
    for_up (length (traps m)) 0 (fun i_trap n_trapped_electrons =>
      let* total := for_up (Z.to_nat (n_active_watermarks w)) 0 (fun k acc =>
                 let* f := rd wmk_fills
                             (i_first_active_wmk w * n_traps m + i_trap + k * n_traps m) in
                 let* v := rd wmk_volumes (i_first_active_wmk w + k) in
                 Ok (acc + f * v)%D) 0%Q in
      let* d := density_at (traps m) i_trap in
      Ok (n_trapped_electrons + total * d)%D) 0%Q.

(** The search loop of [watermark_index_above_cloud_from_volumes]:
    [Some i] is the early [return i_wmk]. *)
Fixpoint index_search (volumes : list Q) (cloud_fractional_volume : Q)
    (n : nat) (i_wmk : Z) (cumulative_volume : Q) : result (option Z) :=
  match n with
  | O => Ok None
  | Datatypes.S n' =>
      let* v := rd volumes i_wmk in
      let cumulative_volume := (cumulative_volume + v)%D in
      if Qlt_bool cloud_fractional_volume cumulative_volume then Ok (Some i_wmk)
      else index_search volumes cloud_fractional_volume n' (i_wmk + 1) cumulative_volume
  end.

(** The argument [wmk_volumes] is ignored by the source, which reads the
    member [watermark_volumes]. *)
Definition watermark_index_above_cloud_from_volumes
    (w : Watermarks) (wmk_volumes : list Q) (cloud_fractional_volume : Q) : result Z :=
  let* found := index_search (watermark_volumes w) cloud_fractional_volume
             (Z.to_nat (n_active_watermarks w)) (i_first_active_wmk w) 0%Q in
  match found with
  | Some i_wmk => Ok i_wmk
  | None => Ok (n_active_watermarks w)
  end.

(** ** TrapManagerInstantCapture:: *)

Definition TrapManagerInstantCapture_new
    (ts : list Trap) (max_transfers : Z) (c : CCD) : TrapManager :=
  let m := TrapManager_new ts max_transfers c in
  {| traps := traps m; max_n_transfers := max_n_transfers m; ccd := ccd m;
     n_watermarks_per_transfer := 1;
     n_watermarks := n_watermarks m;
     empty_probabilities_from_release := empty_probabilities_from_release m;
     live := live m; stored := stored m |}.

(** The instant-capture manager reads of the probabilities only
    [empty_probabilities_from_release]; this sets that member (see
    [set_fill_probabilities_from_dwell_time] below for how the source
    computes it). *)
Definition set_empty_probabilities (m : TrapManager) (p : list Q) : TrapManager :=
  {| traps := traps m; max_n_transfers := max_n_transfers m; ccd := ccd m;
     n_watermarks_per_transfer := n_watermarks_per_transfer m;
     n_watermarks := n_watermarks m;
     empty_probabilities_from_release := p;
     live := live m; stored := stored m |}.

Definition n_electrons_released (m : TrapManager) : result (Q * TrapManager) :=
  let w := live m in
  let* (n_released, fills) :=
    for_up (Z.to_nat (n_active_watermarks w)) (i_first_active_wmk w)
      (fun i_wmk '(n_released, fills) =>
         let* (n_released_this_trap, fills) :=
           for_up (length (traps m)) 0
             (fun i_trap '(n_released_this_trap, fills) =>
                let* f := rd fills (i_wmk * n_traps m + i_trap) in
                let* p := rd (empty_probabilities_from_release m) i_trap in
                let frac_released := (f * p)%D in
                let* d := density_at (traps m) i_trap in
                let* fills := wr fills (i_wmk * n_traps m + i_trap) (f - frac_released)%D in
                Ok ((n_released_this_trap + frac_released * d)%D, fills))
             (0%Q, fills) in
         let* v := rd (watermark_volumes w) i_wmk in
         Ok ((n_released + n_released_this_trap * v)%D, fills))
      (0%Q, watermark_fills w) in
  Ok (n_released, set_live m (set_fills w fills)).

(** The first loop of [n_electrons_captured]: the electrons that the
    watermarks from the first active one up to [i_wmk_above_cloud] can
    capture. *)
Definition n_capturable (m : TrapManager) (w : Watermarks)
    (cloud_fractional_volume : Q) (i_wmk_above_cloud : Z) : result Q :=
  let* (n_captured, _) :=
    for_up (Z.to_nat (i_wmk_above_cloud - i_first_active_wmk w + 1)) (i_first_active_wmk w)
      (fun i_wmk '(n_captured, next_cumulative_volume) =>
         let cumulative_volume := next_cumulative_volume in
         let* v := rd (watermark_volumes w) i_wmk in
         let next_cumulative_volume := (next_cumulative_volume + v)%D in
         let* n_captured_this_wmk :=
           for_up (length (traps m)) 0
             (fun i_trap n_captured_this_wmk =>
                let* f := rd (watermark_fills w) (i_wmk * n_traps m + i_trap) in
                let* d := density_at (traps m) i_trap in
                Ok (n_captured_this_wmk + (1%Q - f) * d)%D) 0%Q in
         if i_wmk =? i_wmk_above_cloud then
           Ok ((n_captured
                + n_captured_this_wmk * (cloud_fractional_volume - cumulative_volume))%D,
               next_cumulative_volume)
         else
           Ok ((n_captured
                + n_captured_this_wmk * (next_cumulative_volume - cumulative_volume))%D,
               next_cumulative_volume))
      (0%Q, 0%Q) in
  Ok n_captured.

(** The IEEE outcomes of [n_free_electrons / n_captured].  [n_captured] is a
    sum started at [0.0], so a zero divisor is [+0.0]. *)
Inductive quotient : Type :=
| Finite (q : Q)
| PlusInfinity
| MinusInfinity
| NotANumber.

Definition divide (a b : Q) : quotient :=
  if Qeq_bool b 0 then
    if Qlt_bool 0 a then PlusInfinity
    else if Qlt_bool a 0 then MinusInfinity
    else NotANumber
  else Finite (a / b)%D.

(** [enough >= 1.0] *)
Definition at_least_one (enough : quotient) : bool :=
  match enough with
  | Finite q => Qle_bool 1 q
  | PlusInfinity => true
  | MinusInfinity | NotANumber => false
  end.

(** "Copy-paste all higher watermarks up one to make room":
    [for (i_wmk = hi; i_wmk >= lo; i_wmk--)]. *)
Definition copy_paste_up (m : TrapManager) (hi lo : Z) (w : Watermarks) : result Watermarks :=
  for_down (Z.to_nat (hi - lo + 1)) hi
    (fun i_wmk w =>
       let* v := rd (watermark_volumes w) i_wmk in
       let* volumes := wr (watermark_volumes w) (i_wmk + 1) v in
       let* fills :=
         for_up (length (traps m)) 0
           (fun i_trap fills =>
              let* f := rd fills (i_wmk * n_traps m + i_trap) in
              wr fills ((i_wmk + 1) * n_traps m + i_trap) f)
           (watermark_fills w) in
       Ok (set_fills (set_volumes w volumes) fills))
    w.

(** [for (i_wmk = lo; i_wmk < lo + n; i_wmk++) total += watermark_volumes[i_wmk]] *)
Definition sum_volumes (volumes : list Q) (lo : Z) (n : nat) : result Q :=
  for_up n lo (fun i_wmk total => let* v := rd volumes i_wmk in Ok (total + v)%D) 0%Q.

(** "Make room for the new lowest watermark", shared by both branches. *)
Definition make_room_below (m : TrapManager) (w : Watermarks) : result Watermarks :=
  if 0 <? i_first_active_wmk w then
    Ok (set_i_first w (i_first_active_wmk w - 1))
  else
    copy_paste_up m (i_first_active_wmk w + n_active_watermarks w) (i_first_active_wmk w) w.

(** "Normal full capture": the four cases of the [enough >= 1.0] branch. *)
Definition full_capture (m : TrapManager) (w : Watermarks)
    (cloud_fractional_volume : Q) (i_wmk_above_cloud : Z) : result Watermarks :=
  if n_active_watermarks w =? 0 then
    (* First capture *)
    let* volumes := wr (watermark_volumes w) 0 cloud_fractional_volume in
    let* fills := update_slice (watermark_fills w) 0 (n_traps m) (fun _ => 1%Q) in
    Ok (set_n_active (set_fills (set_volumes w volumes) fills) (n_active_watermarks w + 1))
  else if i_wmk_above_cloud =? i_first_active_wmk w then
    (* Cloud below all current watermarks *)
    let* w := make_room_below m w in
    let w := set_n_active w (n_active_watermarks w + 1) in
    let* volumes := wr (watermark_volumes w) (i_first_active_wmk w) cloud_fractional_volume in
    let* fills := update_slice (watermark_fills w) (i_first_active_wmk w * n_traps m)
                    (n_traps m) (fun _ => 1%Q) in
    let* v := rd volumes (i_first_active_wmk w + 1) in
    let* volumes := wr volumes (i_first_active_wmk w + 1) (v - cloud_fractional_volume)%D in
    Ok (set_fills (set_volumes w volumes) fills)
  else if i_wmk_above_cloud =? i_first_active_wmk w + n_active_watermarks w then
    (* Cloud above all current watermarks *)
    let w := set_i_first w (i_wmk_above_cloud - 1) in
    let* volumes := wr (watermark_volumes w) (i_first_active_wmk w) cloud_fractional_volume in
    let* fills := update_slice (watermark_fills w) (i_first_active_wmk w * n_traps m)
                    (n_traps m) (fun _ => 1%Q) in
    Ok (set_n_active (set_fills (set_volumes w volumes) fills) 1)
  else
    (* Cloud between current watermarks *)
    let* previous_total_volume :=
      sum_volumes (watermark_volumes w) (i_first_active_wmk w)
        (Z.to_nat (i_wmk_above_cloud - i_first_active_wmk w + 1)) in
    let* volumes := wr (watermark_volumes w) i_wmk_above_cloud
                      (previous_total_volume - cloud_fractional_volume)%D in
    let w := set_volumes w volumes in
    let w := set_n_active w
               (n_active_watermarks w + (i_first_active_wmk w - i_wmk_above_cloud + 1)) in
    let w := set_i_first w (i_wmk_above_cloud - 1) in
    let* volumes := wr (watermark_volumes w) (i_first_active_wmk w) cloud_fractional_volume in
    let* fills := update_slice (watermark_fills w) (i_first_active_wmk w * n_traps m)
                    (n_traps m) (fun _ => 1%Q) in
    Ok (set_fills (set_volumes w volumes) fills).

(** "Partial capture": the four cases of the other branch, for a finite
    [enough]. *)
Definition partial_capture (m : TrapManager) (w : Watermarks)
    (cloud_fractional_volume : Q) (i_wmk_above_cloud : Z) (enough : Q)
  : result Watermarks :=
  let part_way := fun f : Q => (f * (1%Q - enough) + enough)%D in
  if n_active_watermarks w =? 0 then
    (* First capture *)
    let* volumes := wr (watermark_volumes w) 0 cloud_fractional_volume in
    let* fills := update_slice (watermark_fills w) 0 (n_traps m) (fun _ => enough) in
    Ok (set_n_active (set_fills (set_volumes w volumes) fills) (n_active_watermarks w + 1))
  else if i_wmk_above_cloud =? i_first_active_wmk w then
    (* Cloud below all current watermarks *)
    let* w := make_room_below m w in
    let w := set_n_active w (n_active_watermarks w + 1) in
    let* volumes := wr (watermark_volumes w) (i_first_active_wmk w) cloud_fractional_volume in
    let* fills := update_slice (watermark_fills w) (i_first_active_wmk w * n_traps m)
                    (n_traps m) part_way in
    let* v := rd volumes (i_first_active_wmk w + 1) in
    let* volumes := wr volumes (i_first_active_wmk w + 1) (v - cloud_fractional_volume)%D in
    Ok (set_fills (set_volumes w volumes) fills)
  else if i_wmk_above_cloud =? i_first_active_wmk w + n_active_watermarks w then
    (* Cloud above all current watermarks *)
    let* volume_below :=
      sum_volumes (watermark_volumes w) (i_first_active_wmk w)
        (Z.to_nat (i_wmk_above_cloud - i_first_active_wmk w)) in
    let* volumes := wr (watermark_volumes w) i_wmk_above_cloud
                      (cloud_fractional_volume - volume_below)%D in
    let w := set_n_active (set_volumes w volumes) (n_active_watermarks w + 1) in
    let* fills := update_slice (watermark_fills w) (i_first_active_wmk w * n_traps m)
                    (n_active_watermarks w * n_traps m) part_way in
    Ok (set_fills w fills)
  else
    (* Cloud between current watermarks *)
    let* w := copy_paste_up m
                (i_wmk_above_cloud - 1 + n_active_watermarks w - i_first_active_wmk w)
                i_wmk_above_cloud w in
    let* volume_below :=
      sum_volumes (watermark_volumes w) (i_first_active_wmk w)
        (Z.to_nat (i_wmk_above_cloud - i_first_active_wmk w)) in
    let* volumes := wr (watermark_volumes w) i_wmk_above_cloud
                      (cloud_fractional_volume - volume_below)%D in
    let* v_new := rd volumes i_wmk_above_cloud in
    let* v := rd volumes (i_wmk_above_cloud + 1) in
    let* volumes := wr volumes (i_wmk_above_cloud + 1) (v - v_new)%D in
    let w := set_n_active (set_volumes w volumes) (n_active_watermarks w + 1) in
    let* fills := update_slice (watermark_fills w) (i_first_active_wmk w * n_traps m)
                    ((i_wmk_above_cloud + 1 - i_first_active_wmk w) * n_traps m) part_way in
    Ok (set_fills w fills).

(** With [enough] at minus infinity or not a number the source goes on into
    the partial-capture branch and stores values that are not finite; the
    embedding stops there with [NotFinite]. *)
Definition n_electrons_captured (m : TrapManager) (n_free_electrons : Q)
  : result (Q * TrapManager) :=
  let cloud_fractional_volume :=
    cloud_fractional_volume_from_electrons (ccd m) n_free_electrons in
  if Qeq_bool cloud_fractional_volume 0 then Ok (0%Q, m)
  else
    let w := live m in
    let* i_wmk_above_cloud :=
      watermark_index_above_cloud_from_volumes w (watermark_volumes w)
        cloud_fractional_volume in
    let* n_captured := n_capturable m w cloud_fractional_volume i_wmk_above_cloud in
    let enough := divide n_free_electrons n_captured in
    if at_least_one enough then
      let* w := full_capture m w cloud_fractional_volume i_wmk_above_cloud in
      Ok (n_captured, set_live m w)
    else
      match enough with
      | Finite enough =>
          let* w := partial_capture m w cloud_fractional_volume i_wmk_above_cloud enough in
          Ok ((n_captured * enough)%D, set_live m w)
      | _ => NotFinite
      end.

Definition n_electrons_released_and_captured (m : TrapManager) (n_free_electrons : Q)
  : result (Q * TrapManager) :=
  let* (n_released, m) := n_electrons_released m in
  let* (n_captured, m) := n_electrons_captured m (n_free_electrons + n_released)%D in
  Ok ((n_released - n_captured)%D, m).

(** ** Fill probabilities

    [set_fill_probabilities_from_dwell_time] calls [exp]; it is embedded
    over the real numbers.  The four arrays are allocated with zeros and
    then written species by species. *)

Record FillProbabilities : Type := {
  fill_probabilities_from_empty : list R;
  fill_probabilities_from_full : list R;
  fill_probabilities_from_release : list R;
  empty_probabilities_from_release_R : list R
}.

Definition set_probabilities_of_trap (i_trap : nat) (t : Trap) (dwell_time : R)
    (fp : FillProbabilities) : FillProbabilities :=
  let total_rate := (capture_rate t + emission_rate t)%R in
  let exponential_factor := ((1 - exp (- total_rate * dwell_time)) / total_rate)%R in
  let from_empty :=
    if Req_dec_T (capture_rate t) 0%R then 1%R
    else (capture_rate t * exponential_factor)%R in
  let from_full := (1 - emission_rate t * exponential_factor)%R in
  let from_release := exp (- emission_rate t * dwell_time) in
  {| fill_probabilities_from_empty := <[i_trap := from_empty]> (fill_probabilities_from_empty fp);
     fill_probabilities_from_full := <[i_trap := from_full]> (fill_probabilities_from_full fp);
     fill_probabilities_from_release :=
       <[i_trap := from_release]> (fill_probabilities_from_release fp);
     empty_probabilities_from_release_R :=
       <[i_trap := (1 - from_release)%R]> (empty_probabilities_from_release_R fp) |}.

(** [for (i_trap = ...; i_trap < n_traps; i_trap++)] over the species that are
    left. *)
Fixpoint set_probabilities_loop (ts : list Trap) (i_trap : nat) (dwell_time : R)
    (fp : FillProbabilities) : FillProbabilities :=
  match ts with
  | [] => fp
  | t :: ts' =>
      set_probabilities_loop ts' (S i_trap) dwell_time
        (set_probabilities_of_trap i_trap t dwell_time fp)
  end.

Definition set_fill_probabilities_from_dwell_time (ts : list Trap) (dwell_time : R)
  : FillProbabilities :=
  let zeros := replicate (length ts) 0%R in
  set_probabilities_loop ts 0 dwell_time
    {| fill_probabilities_from_empty := zeros;
       fill_probabilities_from_full := zeros;
       fill_probabilities_from_release := zeros;
       empty_probabilities_from_release_R := zeros |}.

(** ** Sequences of operations *)

(** A manager as the clocker sets it up: constructed, initialised, and with
    the release probabilities of the dwell time in place. *)
Definition initialise (ts : list Trap) (max_transfers : Z) (c : CCD) (p : list Q)
  : TrapManager :=
  set_empty_probabilities
    (initialise_trap_states (TrapManagerInstantCapture_new ts max_transfers c)) p.

Inductive operation : Type :=
| Reset
| Store
| Restore
| ReleaseAndCapture (n_free_electrons : Q).

(** One public operation; the returned list holds the value returned by a
    transfer. *)
Definition apply_operation (o : operation) (m : TrapManager)
  : result (list Q * TrapManager) :=
  match o with
  | Reset => Ok ([], reset_trap_states m)
  | Store => Ok ([], store_trap_states m)
  | Restore => Ok ([], restore_trap_states m)
  | ReleaseAndCapture n =>
      let* (d, m) := n_electrons_released_and_captured m n in Ok ([d], m)
  end.

Fixpoint run (os : list operation) (m : TrapManager) : result (list Q * TrapManager) :=
  match os with
  | [] => Ok ([], m)
  | o :: os' =>
      let* (out, m) := apply_operation o m in
      let* (outs, m) := run os' m in
      Ok (out ++ outs, m)
  end.

(** Successive transfers with the given free electrons. *)
Definition transfers (ns : list Q) (m : TrapManager) : result (list Q * TrapManager) :=
  run (map ReleaseAndCapture ns) m.

(** [n_trapped_electrons_from_watermarks] of the manager's own arrays. *)
Definition n_trapped_electrons (m : TrapManager) : result Q :=
  n_trapped_electrons_from_watermarks m
    (watermark_volumes (live m)) (watermark_fills (live m)).

(** ** Properties of watermark states *)

(** [i_wmk] lies in the active window. *)
Definition active (w : Watermarks) (i_wmk : Z) : Prop :=
  i_first_active_wmk w <= i_wmk < i_first_active_wmk w + n_active_watermarks w.

(** Every cell of an array from index [t] on holds the empty watermark. *)
Definition empty_from (a : list Q) (t : Z) : Prop :=
  forall i x, t <= i -> rd a i = Ok x -> x = empty_watermark.

(** Invariant I2 of the specification, without the sum. *)
Definition volumes_in_unit_interval (w : Watermarks) : Prop :=
  forall i v, active w i -> rd (watermark_volumes w) i = Ok v -> (0 <= v <= 1)%Q.

(** Invariant I3 of the specification. *)
Definition fills_in_unit_interval (m : TrapManager) : Prop :=
  forall i s f, active (live m) i -> 0 <= s < n_traps m ->
    rd (watermark_fills (live m)) (i * n_traps m + s) = Ok f -> (0 <= f <= 1)%Q.

(** Invariant I4 of the specification: the cells outside the active window
    are empty. *)
Definition inactive_cells_empty (m : TrapManager) : Prop :=
  (forall i v, ~ active (live m) i ->
     rd (watermark_volumes (live m)) i = Ok v -> (v == 0)%Q) /\
  (forall i s f, ~ active (live m) i -> 0 <= s < n_traps m ->
     rd (watermark_fills (live m)) (i * n_traps m + s) = Ok f -> (f == 0)%Q).

(** What the code keeps of I4: the cells from the top of the active window
    on are empty. *)
Definition cells_above_empty (n : Z) (w : Watermarks) : Prop :=
  0 <= i_first_active_wmk w /\ 0 <= n_active_watermarks w /\
  empty_from (watermark_volumes w) (i_first_active_wmk w + n_active_watermarks w) /\
  empty_from (watermark_fills w) ((i_first_active_wmk w + n_active_watermarks w) * n).

(** The manager with another snapshot in store. *)
Definition with_stored (m : TrapManager) (s : Watermarks) : TrapManager :=
  {| traps := traps m; max_n_transfers := max_n_transfers m; ccd := ccd m;
     n_watermarks_per_transfer := n_watermarks_per_transfer m;
     n_watermarks := n_watermarks m;
     empty_probabilities_from_release := empty_probabilities_from_release m;
     live := live m; stored := s |}.

(** No [Restore] comes before the first [Store]. *)
Fixpoint restores_follow_store (os : list operation) : bool :=
  match os with
  | [] => true
  | Store :: _ => true
  | Restore :: _ => false
  | _ :: os' => restores_follow_store os'
  end.

(** What a caller can observe of a run: the returned values and the
    watermarks. *)
Definition observe (r : result (list Q * TrapManager)) : result (list Q * Watermarks) :=
  let* (outs, m) := r in Ok (outs, live m).

(** ** Managers used in the examples *)

(** Modelled from the spec: one instant-capture species, as
    [TrapInstantCapture(density, release_timescale)] builds it, with
    [capture_rate = 0] and [emission_rate = 1 / release_timescale]. *)
Definition instant_capture_trap (dens : Q) (rate : R) : Trap :=
  {| density := dens; capture_rate := 0%R; emission_rate := rate |}.

(** Density 16, full well 1024, half of the trapped electrons released per
    transfer. *)
Definition manager_16 (max_transfers : Z) : TrapManager :=
  initialise [instant_capture_trap 16 (ln 2)] max_transfers (linear_ccd 1024 0) [1 # 2]%Q.

(** Density 2048, above the full well depth, so that small packets are
    captured partially; the release probability is given as such. *)
Definition manager_2048 (max_transfers : Z) (p : Q) : TrapManager :=
  initialise [instant_capture_trap 2048 1%R] max_transfers (linear_ccd 1024 0) [p].

(** A species without traps. *)
Definition manager_no_traps : TrapManager :=
  initialise [instant_capture_trap 0 (ln 2)] 4 (linear_ccd 1024 0) [1 # 2]%Q.

(** The invariant of a manager: it holds of the watermarks and of their
    snapshot. *)
Definition manager_cells (m : TrapManager) : Prop :=
  cells_above_empty (n_traps m) (live m) /\ cells_above_empty (n_traps m) (stored m).

(** A manager set up anew with the settings of [m]. *)
Definition fresh_like (m : TrapManager) : TrapManager :=
  initialise (traps m) (max_n_transfers m) (ccd m) (empty_probabilities_from_release m).

(** [m] is an instant-capture manager whose arrays have been allocated. *)
Definition initialised_instant_capture (m : TrapManager) : Prop :=
  n_watermarks_per_transfer m = 1 /\
  n_watermarks m = max_n_transfers m * n_watermarks_per_transfer m + 1.

(** The four entries that the loop body writes for species [t]. *)
Definition probabilities_of (t : Trap) (dwell_time : R) : R * R * R * R :=
  let total_rate := (capture_rate t + emission_rate t)%R in
  let exponential_factor := ((1 - exp (- total_rate * dwell_time)) / total_rate)%R in
  (if Req_dec_T (capture_rate t) 0%R then 1%R else (capture_rate t * exponential_factor)%R,
   (1 - emission_rate t * exponential_factor)%R,
   exp (- emission_rate t * dwell_time),
   (1 - exp (- emission_rate t * dwell_time))%R).

(** The entries of the four arrays at one species, when all are there. *)
Definition entries (fp : FillProbabilities) (i : nat) : option (R * R * R * R) :=
  match fill_probabilities_from_empty fp !! i, fill_probabilities_from_full fp !! i,
        fill_probabilities_from_release fp !! i,
        empty_probabilities_from_release_R fp !! i with
  | Some a, Some b, Some c, Some d => Some (a, b, c, d)
  | _, _, _, _ => None
  end.

(** Each of the four arrays has at least [n] entries. *)
Definition lengths_at_least (fp : FillProbabilities) (n : nat) : Prop :=
  (n <= length (fill_probabilities_from_empty fp))%nat /\
  (n <= length (fill_probabilities_from_full fp))%nat /\
  (n <= length (fill_probabilities_from_release fp))%nat /\
  (n <= length (empty_probabilities_from_release_R fp))%nat.

(** The cumulative volume of the active watermarks up to and including
    [i_wmk], summed as the search loop does. *)
Definition cumulative_volume (w : Watermarks) (i_wmk : Z) : result Q :=
  sum_volumes (watermark_volumes w) (i_first_active_wmk w)
    (Z.to_nat (i_wmk - i_first_active_wmk w + 1)).

(** The cumulative volume at [i_wmk] is strictly above the cloud. *)
Definition reaches_above (w : Watermarks) (cloud : Q) (i_wmk : Z) : Prop :=
  exists total, cumulative_volume w i_wmk = Ok total /\ (cloud < total)%Q.

(** ** Watermarks met in the examples *)

(** [manager_16 4] after the transfer of 512 electrons. *)
Definition after_512 : Watermarks :=
  {| watermark_volumes := [1 # 2; 0; 0; 0; 0]%Q;
     watermark_fills := [1; 0; 0; 0; 0]%Q;
     n_active_watermarks := 1;
     i_first_active_wmk := 0 |}.

(** [manager_16 4] after the transfers of 512, 252 and 765 electrons: the
    third capture lay above both watermarks and skipped the first cell. *)
Definition after_512_252_765 : Watermarks :=
  {| watermark_volumes := [1 # 4; 3 # 4; 0; 0; 0]%Q;
     watermark_fills := [1 # 2; 1; 0; 0; 0]%Q;
     n_active_watermarks := 1;
     i_first_active_wmk := 1 |}.

(** The same after the release of the fourth transfer. *)
Definition after_512_252_765_released : Watermarks :=
  {| watermark_volumes := [1 # 4; 3 # 4; 0; 0; 0]%Q;
     watermark_fills := [1 # 2; 1 # 2; 0; 0; 0]%Q;
     n_active_watermarks := 1;
     i_first_active_wmk := 1 |}.

(** [manager_16 4] after the transfers of 512, 252, 765 and 890 electrons. *)
Definition after_512_252_765_890 : Watermarks :=
  {| watermark_volumes := [7 # 8; -1 # 8; 0; 0; 0]%Q;
     watermark_fills := [1; 1 # 2; 0; 0; 0]%Q;
     n_active_watermarks := 2;
     i_first_active_wmk := 0 |}.

(** [manager_16 5] after the transfers of 512, 252, 125 and 766 electrons,
    and after one more of 890. *)
Definition after_512_252_125_766 : Watermarks :=
  {| watermark_volumes := [1 # 8; 1 # 8; 3 # 4; 0; 0; 0]%Q;
     watermark_fills := [1 # 2; 1 # 4; 1; 0; 0; 0]%Q;
     n_active_watermarks := 1;
     i_first_active_wmk := 2 |}.

Definition after_512_252_125_766_890 : Watermarks :=
  {| watermark_volumes := [7 # 8; -7 # 8; 3 # 4; 0; 0; 0]%Q;
     watermark_fills := [1; 1 # 4; 1 # 2; 0; 0; 0]%Q;
     n_active_watermarks := 3;
     i_first_active_wmk := 0 |}.

(** A state with two skipped watermarks whose cells are empty, as the
    invariants I1 to I4 of the specification ask, and what a transfer of 890
    electrons makes of it. *)
Definition skipped_and_empty : Watermarks :=
  {| watermark_volumes := [0; 0; 3 # 4; 0; 0; 0]%Q;
     watermark_fills := [0; 0; 1; 0; 0; 0]%Q;
     n_active_watermarks := 1;
     i_first_active_wmk := 2 |}.

Definition skipped_and_empty_890 : Watermarks :=
  {| watermark_volumes := [7 # 8; -7 # 8; 3 # 4; 0; 0; 0]%Q;
     watermark_fills := [1; 0; 1 # 2; 0; 0; 0]%Q;
     n_active_watermarks := 3;
     i_first_active_wmk := 0 |}.

(** [manager_2048 4 (1 # 2)] after the transfers of 256, 384 and 448
    electrons: three partial captures, one above the other. *)
Definition after_256_384_448 : Watermarks :=
  {| watermark_volumes := [1 # 4; 1 # 4; 1 # 4; 0; 0]%Q;
     watermark_fills := [115 # 152; 14 # 19; 12 # 19; 0; 0]%Q;
     n_active_watermarks := 3;
     i_first_active_wmk := 0 |}.

(** The same after the release of the fourth transfer. *)
Definition after_256_384_448_released : Watermarks :=
  {| watermark_volumes := [1 # 4; 1 # 4; 1 # 4; 0; 0]%Q;
     watermark_fills := [115 # 304; 7 # 19; 6 # 19; 0; 0]%Q;
     n_active_watermarks := 3;
     i_first_active_wmk := 0 |}.

(** [manager_2048 6 (1 # 8)] after the transfers of 832, 704, 384, 1024,
    896 and 832 electrons. *)
Definition after_six_transfers : Watermarks :=
  {| watermark_volumes := [1; -1; 1; 0; 0; 0; 0]%Q;
     watermark_fills :=
       [-474 # 103; -1652647 # 105472; -7831 # 824; -4513 # 103; 0; 0; 0]%Q;
     n_active_watermarks := 4;
     i_first_active_wmk := 0 |}.

(** A manager that has seen one transfer and then taken a snapshot. *)
Definition manager_16_with_snapshot : TrapManager :=
  store_trap_states (set_live (manager_16 4) after_512).

Definition manager_16_skipped : TrapManager :=
  set_live (manager_16 5) skipped_and_empty.

(** [manager_16 4] after the transfer of 512 electrons and a capture of 256
    more, which finds the one watermark that it reaches full. *)
Definition after_512_captured_256 : Watermarks :=
  {| watermark_volumes := [1 # 4; 1 # 4; 0; 0; 0]%Q;
     watermark_fills := [1; 1; 0; 0; 0]%Q;
     n_active_watermarks := 2;
     i_first_active_wmk := 0 |}.

(** Density 8192 and a notch of 512 electrons below a full well of 1024; a
    quarter of the trapped electrons is released per transfer. *)
Definition manager_8192 (max_transfers : Z) : TrapManager :=
  initialise [instant_capture_trap 8192 1%R] max_transfers (linear_ccd 1024 512) [1 # 4]%Q.

(** [manager_8192 6] after the transfers of 544, 448, 336, 0 and 0 electrons:
    the third capture lay above the stack and skipped the first cell. *)
Definition after_five_transfers : Watermarks :=
  {| watermark_volumes := [1 # 16; 1 # 8; 0; 0; 0; 0; 0]%Q;
     watermark_fills := [117 # 160; 9 # 16; 0; 0; 0; 0; 0]%Q;
     n_active_watermarks := 1;
     i_first_active_wmk := 1 |}.

(** The same after the release of the sixth transfer, and after its capture
    of 431 + 144 electrons. *)
Definition after_five_transfers_released : Watermarks :=
  {| watermark_volumes := [1 # 16; 1 # 8; 0; 0; 0; 0; 0]%Q;
     watermark_fills := [117 # 160; 27 # 64; 0; 0; 0; 0; 0]%Q;
     n_active_watermarks := 1;
     i_first_active_wmk := 1 |}.

Definition after_five_transfers_431 : Watermarks :=
  {| watermark_volumes := [63 # 512; 1 # 512; 0; 0; 0; 0; 0]%Q;
     watermark_fills := [371627 # 372960; 27 # 64; 0; 0; 0; 0; 0]%Q;
     n_active_watermarks := 2;
     i_first_active_wmk := 0 |}.

(** ** util.cpp, the other helpers *)

(** [flatten]: the two loops and [push_back]. *)
Definition flatten (array : list (list Q)) : list Q :=
  fold_left (fun vector row => fold_left (fun vector x => vector ++ [x]) row vector)
    array [].

(** [arange]: [for (value = start; value < stop; value += step)
    tmp_array.push_back(value)].  The loop need not end; [fuel] bounds the
    number of tests of [value < stop], and [None] says that it ran out. *)
Fixpoint arange_loop (fuel : nat) (value stop step : Q) (tmp_array : list Q)
  : option (list Q) :=
  match fuel with
  | O => None
  | S fuel' =>
      if Qlt_bool value stop
      then arange_loop fuel' (value + step)%D stop step (tmp_array ++ [value])
      else Some tmp_array
  end.

Definition arange (fuel : nat) (start stop step : Q) : option (list Q) :=
  arange_loop fuel start stop step [].

(** The same loop on binary64 numbers, with the rounding of [value += step]
    and the comparison of doubles. *)
Fixpoint arange_loop_double (fuel : nat) (value stop step : float)
    (tmp_array : list float) : option (list float) :=
  match fuel with
  | O => None
  | S fuel' =>
      if PrimFloat.ltb value stop
      then arange_loop_double fuel' (PrimFloat.add value step) stop step
             (tmp_array ++ [value])
      else Some tmp_array
  end.

Definition arange_double (fuel : nat) (start stop step : float) : option (list float) :=
  arange_loop_double fuel start stop step [].

(** [struct timeval] of sys/time.h: whole seconds and microseconds. *)
Record timeval : Type := { tv_sec : Z; tv_usec : Z }.

Definition gettimelapsed (start end_ : timeval) : Q :=
  let seconds := inject_Z (tv_sec end_ - tv_sec start) in
  let microseconds := inject_Z (tv_usec end_ - tv_usec start) in
  let seconds' := if Qlt_bool microseconds 0 then (seconds - 1%Q)%D else seconds in
  let microseconds' :=
    if Qlt_bool microseconds 0 then (1000000%Q - microseconds)%D else microseconds in
  let microseconds'' := (microseconds' / 1000000%Q)%D in
  (seconds' + microseconds'')%D.

(** What the print functions write: the pieces of their [printf] calls, in
    order.  A double printed with ["%g"] is kept as the value. *)
Inductive printed : Type :=
| Bracket            (* "[" *)
| IndentedBracket    (* " [" *)
| Number (x : Q)     (* "%g" *)
| Separator          (* ", " *)
| EndOfRow           (* "]\n" *)
| EndOfArray.        (* "]]\n" *)

(** [print_array] *)
Definition print_array (array : list Q) : result (list printed) :=
  let n_col := Z.of_nat (length array) in
  let* out :=
    for_up (length array) 0
      (fun i_col out =>
         let* x := rd array i_col in
         let out := out ++ [Number x] in
         Ok (if negb (i_col =? n_col - 1) then out ++ [Separator] else out))
      [Bracket] in
  Ok (out ++ [EndOfRow]).

(** The inner loop of both [print_array_2D]: the entries of one row, each
    followed by a separator, the end of the row or the end of the array. *)
Definition print_row (n_row n_col i_row : Z) (element : Z -> result Q)
    (out : list printed) : result (list printed) :=
  for_up (Z.to_nat n_col) 0
    (fun i_col out =>
       let* x := element i_col in
       let out := out ++ [Number x] in
       Ok (if negb (i_col =? n_col - 1) then out ++ [Separator]
           else if negb (i_row =? n_row - 1) then out ++ [EndOfRow]
           else out ++ [EndOfArray]))
    out.

(** [print_array_2D(array, n_col)], of a 1D array.  [n_tot / n_col] is the
    division of ints; with [n_col = 0] it is not defined, which is [None]. *)
Definition print_array_2D_flat (array : list Q) (n_col : Z)
  : option (result (list printed)) :=
  if n_col =? 0 then None
  else
    let n_tot := Z.of_nat (length array) in
    let n_row := Z.quot n_tot n_col in
    Some (for_up (Z.to_nat n_row) 0
            (fun i_row out =>
               let out := out ++ [if i_row =? 0 then Bracket else IndentedBracket] in
               print_row n_row n_col i_row
                 (fun i_col => rd array (i_row * n_col + i_col)) out)
            [Bracket]).

(** [print_array_2D(array)], of an array of rows. *)
Definition print_array_2D (array : list (list Q)) : result (list printed) :=
  let n_row := Z.of_nat (length array) in
  for_up (length array) 0
    (fun i_row out =>
       match array !! Z.to_nat i_row with
       | Some row =>
           let n_col := Z.of_nat (length row) in
           let out := out ++ [if i_row =? 0 then Bracket else IndentedBracket] in
           print_row n_row n_col i_row (fun i_col => rd row i_col) out
       | None => OutOfRange
       end)
    [Bracket].

(** The values among what has been printed. *)
Fixpoint numbers (out : list printed) : list Q :=
  match out with
  | [] => []
  | Number x :: out' => x :: numbers out'
  | _ :: out' => numbers out'
  end.

(** ** Further properties of watermark states *)

(** The end of the active window. *)
Definition window_top (w : Watermarks) : Z :=
  i_first_active_wmk w + n_active_watermarks w.

(** The number of transfers among the operations of a run. *)
Fixpoint n_transfers (os : list operation) : Z :=
  match os with
  | [] => 0
  | ReleaseAndCapture _ :: os' => 1 + n_transfers os'
  | _ :: os' => n_transfers os'
  end.

(** Both arrays, of the watermarks and of their snapshot, have the sizes
    [nv] and [nf], and neither window ends above [k]. *)
Definition windows_below (nv nf : nat) (k : Z) (m : TrapManager) : Prop :=
  (window_top (live m) <= k /\
   length (watermark_volumes (live m)) = nv /\ length (watermark_fills (live m)) = nf) /\
  (window_top (stored m) <= k /\
   length (watermark_volumes (stored m)) = nv /\ length (watermark_fills (stored m)) = nf).

(** The value of a cell, for sums over cells that are known to exist. *)
Definition cell (a : list Q) (i : Z) : Q :=
  match rd a i with
  | Ok x => x
  | _ => 0%Q
  end.

(** [F i + F (i + 1) + ... + F (i + n - 1)] *)
Fixpoint sum_from (n : nat) (i : Z) (F : Z -> Q) : Q :=
  match n with
  | O => 0%Q
  | S n' => (F i + sum_from n' (i + 1) F)%Q
  end.

(** The sum that [n_trapped_electrons_from_watermarks] computes. *)
Definition trapped_sum (m : TrapManager) (wmk_volumes wmk_fills : list Q) : Q :=
  let w := live m in
  sum_from (length (traps m)) 0 (fun i_trap =>
    sum_from (Z.to_nat (n_active_watermarks w)) 0 (fun k =>
      cell wmk_fills (i_first_active_wmk w * n_traps m + i_trap + k * n_traps m)
      * cell wmk_volumes (i_first_active_wmk w + k))
    * cell (map density (traps m)) i_trap)%Q.

(** The sum that [n_electrons_released] returns. *)
Definition released_sum (m : TrapManager) : Q :=
  let w := live m in
  sum_from (Z.to_nat (n_active_watermarks w)) (i_first_active_wmk w) (fun i_wmk =>
    sum_from (length (traps m)) 0 (fun i_trap =>
      cell (watermark_fills w) (i_wmk * n_traps m + i_trap)
      * cell (empty_probabilities_from_release m) i_trap
      * cell (map density (traps m)) i_trap)
    * cell (watermark_volumes w) i_wmk)%Q.

(** * Proofs *)

(** ** Arithmetic

    The operations of [double_scope] are those of the rationals. *)

Lemma double_add_correct (a b : Q) : (double_add a b == a + b)%Q.
Proof. apply Qred_correct. Qed.

Lemma double_sub_correct (a b : Q) : (double_sub a b == a - b)%Q.
Proof. apply Qred_correct. Qed.

Lemma double_mul_correct (a b : Q) : (double_mul a b == a * b)%Q.
Proof. apply Qred_correct. Qed.

Lemma double_div_correct (a b : Q) : (double_div a b == a / b)%Q.
Proof. apply Qred_correct. Qed.

(** ** Array accesses and loops *)

Lemma bind_ok {A B : Type} (r : result A) (k : A -> result B) (b : B) :
  bind r k = Ok b -> exists a, r = Ok a /\ k a = Ok b.
Proof. destruct r; simpl; intros H; try discriminate. eauto. Qed.

(** Split a hypothesis [let* x := r in k = Ok b] into its two steps. *)
Tactic Notation "ok_step" hyp(H) "as" simple_intropattern(a) ident(E) :=
  apply bind_ok in H; destruct H as (a & E & H).

Lemma rd_ok (a : list Q) (i : Z) (x : Q) :
  rd a i = Ok x <-> 0 <= i /\ a !! Z.to_nat i = Some x.
Proof.
  unfold rd. destruct (Z.ltb_spec i 0) as [Hi | Hi].
  - split; [discriminate | lia].
  - destruct (a !! Z.to_nat i) eqn:E; split; intros H'; try discriminate.
    + injection H' as ->. auto.
    + destruct H' as [_ H']. congruence.
    + destruct H' as [_ H']. discriminate.
Qed.

Lemma wr_ok (a a' : list Q) (i : Z) (x : Q) :
  wr a i x = Ok a' ->
  0 <= i /\ (Z.to_nat i < length a)%nat /\ a' = <[Z.to_nat i := x]> a.
Proof.
  unfold wr. destruct (Z.ltb_spec i 0) as [| Hi]; [discriminate |].
  destruct (Nat.ltb_spec (Z.to_nat i) (length a)) as [Hlen |]; [| discriminate].
  intros [= <-]. auto.
Qed.

Lemma rd_wr (a a' : list Q) (i j : Z) (x : Q) :
  wr a i x = Ok a' -> rd a' j = if j =? i then Ok x else rd a j.
Proof.
  intros H. apply wr_ok in H as (Hi & Hlen & ->).
  destruct (Z.eqb_spec j i) as [-> | Hne].
  - apply rd_ok. split; [lia |]. by apply list_lookup_insert_eq.
  - unfold rd. destruct (Z.ltb_spec j 0); [reflexivity |].
    rewrite list_lookup_insert_ne; [reflexivity | lia].
Qed.

Lemma empty_from_le (a : list Q) (t t' : Z) :
  t <= t' -> empty_from a t -> empty_from a t'.
Proof. intros Hle H i x Hi. apply H. lia. Qed.

Lemma empty_from_wr_below (a a' : list Q) (i t : Z) (x : Q) :
  wr a i x = Ok a' -> i < t -> empty_from a t -> empty_from a' t.
Proof.
  intros Hw Hlt H j y Hj. rewrite (rd_wr _ _ _ j _ Hw).
  destruct (Z.eqb_spec j i); [lia |]. by apply H.
Qed.

Lemma empty_array_empty (n t : Z) : empty_from (empty_array n) t.
Proof.
  intros i x _ H. apply rd_ok in H as [_ H].
  unfold empty_array in H. apply lookup_replicate in H as [-> _]. reflexivity.
Qed.

(** Loop invariants. *)
Lemma for_up_invariant {S : Type} (P : Z -> S -> Prop) (body : Z -> S -> result S)
    (n : nat) (i : Z) (s s' : S) :
  (forall j s1 s2, i <= j < i + Z.of_nat n -> P j s1 -> body j s1 = Ok s2 -> P (j + 1) s2) ->
  P i s -> for_up n i body s = Ok s' -> P (i + Z.of_nat n) s'.
Proof.
  revert i s. induction n as [| n IH]; intros i s Hstep Hi H; simpl in H.
  - injection H as <-. by replace (i + Z.of_nat 0) with i by lia.
  - ok_step H as a E.
    replace (i + Z.of_nat (Datatypes.S n)) with (i + 1 + Z.of_nat n) by lia.
    apply (IH (i + 1) a); [| | exact H].
    + intros j s1 s2 Hj. apply Hstep. lia.
    + apply (Hstep i s a); [lia | exact Hi | exact E].
Qed.

Lemma for_down_invariant {S : Type} (P : Z -> S -> Prop) (body : Z -> S -> result S)
    (n : nat) (i : Z) (s s' : S) :
  (forall j s1 s2, i - Z.of_nat n < j <= i -> P j s1 -> body j s1 = Ok s2 -> P (j - 1) s2) ->
  P i s -> for_down n i body s = Ok s' -> P (i - Z.of_nat n) s'.
Proof.
  revert i s. induction n as [| n IH]; intros i s Hstep Hi H; simpl in H.
  - injection H as <-. by replace (i - Z.of_nat 0) with i by lia.
  - ok_step H as a E.
    replace (i - Z.of_nat (Datatypes.S n)) with (i - 1 - Z.of_nat n) by lia.
    apply (IH (i - 1) a); [| | exact H].
    + intros j s1 s2 Hj. apply Hstep. lia.
    + apply (Hstep i s a); [lia | exact Hi | exact E].
Qed.

(** A slice written below [t] leaves the cells from [t] on alone. *)
Lemma empty_from_update_slice (a a' : list Q) (start size t : Z) (f : Q -> Q) :
  update_slice a start size f = Ok a' -> start + size <= t ->
  empty_from a t -> empty_from a' t.
Proof.
  unfold update_slice. destruct (Z.ltb_spec size 0) as [_ | _]; [discriminate |].
  intros H Hle Ha.
  apply (for_up_invariant (fun _ b => empty_from b t)) in H; [exact H | | exact Ha].
  intros j b b' Hj Hb Hbody. ok_step Hbody as x Hx.
  apply (empty_from_wr_below _ _ _ _ _ Hbody); [lia | exact Hb].
Qed.

(** ** Cells above the active window *)

Lemma n_traps_nonneg (m : TrapManager) : 0 <= n_traps m.
Proof. unfold n_traps. lia. Qed.

(** Release writes fills of active watermarks only. *)
Lemma n_electrons_released_cells (m m' : TrapManager) (r : Q) (t : Z) :
  n_electrons_released m = Ok (r, m') ->
  (i_first_active_wmk (live m) + n_active_watermarks (live m)) * n_traps m <= t ->
  exists fills,
    m' = set_live m (set_fills (live m) fills) /\
    (empty_from (watermark_fills (live m)) t -> empty_from fills t).
Proof.
  unfold n_electrons_released. intros H Ht. ok_step H as [n_released fills] Hloop.
  injection H as <- <-.
  exists fills. split; [reflexivity |]. intros Hf.
  apply (for_up_invariant (fun _ s => empty_from (snd s) t)) in Hloop;
    [exact Hloop | | exact Hf].
  intros i_wmk [nr1 f1] [nr2 f2] Hi Hf1 Hbody. simpl in *.
  ok_step Hbody as [nt f3] Hinner. ok_step Hbody as v Hv. injection Hbody as _ <-.
  apply (for_up_invariant (fun _ s => empty_from (snd s) t)) in Hinner;
    [exact Hinner | | exact Hf1].
  intros i_trap [nt1 g1] [nt2 g2] Hj Hg1 Hstep. simpl in *.
  ok_step Hstep as f Hrd. ok_step Hstep as p Hp. ok_step Hstep as d Hd.
  ok_step Hstep as g Hwr. injection Hstep as _ <-.
  apply (empty_from_wr_below _ _ _ _ _ Hwr); [| exact Hg1].
  pose proof (n_traps_nonneg m). unfold n_traps in *. nia.
Qed.

(** The copy-paste loop moves cells up by one: what was empty from [t] on
    is empty from [t + 1] on afterwards, wherever the loop starts. *)
Lemma copy_paste_up_cells (m : TrapManager) (hi lo t : Z) (w w' : Watermarks) :
  copy_paste_up m hi lo w = Ok w' ->
  empty_from (watermark_volumes w) t ->
  empty_from (watermark_fills w) (t * n_traps m) ->
  n_active_watermarks w' = n_active_watermarks w /\
  i_first_active_wmk w' = i_first_active_wmk w /\
  empty_from (watermark_volumes w') (t + 1) /\
  empty_from (watermark_fills w') ((t + 1) * n_traps m).
Proof.
  intros H Hv Hf. unfold copy_paste_up in H.
  pose proof (n_traps_nonneg m) as Hn.
  apply (for_down_invariant (fun (i : Z) (w1 : Watermarks) =>
    n_active_watermarks w1 = n_active_watermarks w /\
    i_first_active_wmk w1 = i_first_active_wmk w /\
    (forall j x, rd (watermark_volumes w1) j = Ok x ->
       t + 1 <= j \/ t <= j <= i -> x = empty_watermark) /\
    (forall k x, rd (watermark_fills w1) k = Ok x ->
       (t + 1) * n_traps m <= k \/ t * n_traps m <= k < (i + 1) * n_traps m ->
       x = empty_watermark))) in H.
  - destruct H as (Hna & Hif & Hv' & Hf'). repeat split; try assumption.
    + intros j x Hj Hrd. apply (Hv' j x Hrd). lia.
    + intros k x Hk Hrd. apply (Hf' k x Hrd). lia.
  - intros j w1 w2 Hj (Hna & Hif & Hv1 & Hf1) Hbody.
    ok_step Hbody as v Hrd. ok_step Hbody as volumes Hwr. ok_step Hbody as fills Hloop.
    injection Hbody as <-. simpl. repeat split; try assumption.
    + intros i x Hx Hi. rewrite (rd_wr _ _ _ i _ Hwr) in Hx.
      destruct (Z.eqb_spec i (j + 1)) as [-> | Hne].
      * injection Hx as <-. apply (Hv1 j v Hrd). lia.
      * apply (Hv1 i x Hx). lia.
    + intros k x Hx Hk.
      refine (for_up_invariant (fun (_ : Z) (g : list Q) =>
        forall k x, rd g k = Ok x ->
          (t + 1) * n_traps m <= k \/ t * n_traps m <= k < (j + 1) * n_traps m ->
          x = empty_watermark) _ _ _ _ _ _ Hf1 Hloop k x Hx _); [| nia].
      clear k x Hx Hk. intros s g1 g2 Hs Hg1 Hstep. ok_step Hstep as f Hf0.
      intros k x Hx Hk. rewrite (rd_wr _ _ _ k _ Hstep) in Hx.
      fold (n_traps m) in Hs.
      destruct (Z.eqb_spec k ((j + 1) * n_traps m + s)) as [-> | Hne].
      * injection Hx as <-. apply (Hg1 _ f Hf0). nia.
      * apply (Hg1 k x Hx Hk).
  - repeat split; try reflexivity.
    + intros j x Hx Hj. apply (Hv j x); [lia | exact Hx].
    + intros k x Hx Hk. apply (Hf k x); [nia | exact Hx].
Qed.

Lemma index_search_range (volumes : list Q) (c : Q) (n : nat) (i j : Z) (cum : Q) :
  index_search volumes c n i cum = Ok (Some j) -> i <= j < i + Z.of_nat n.
Proof.
  revert i cum. induction n as [| n IH]; intros i cum H; simpl in H; [discriminate |].
  ok_step H as v Hv.
  destruct (Qlt_bool c (cum + v)%D).
  - injection H as <-. lia.
  - apply IH in H. lia.
Qed.

(** The index returned lies in the active window, or is the number of
    active watermarks. *)
Lemma watermark_index_range (w : Watermarks) (volumes : list Q) (c : Q) (i_above : Z) :
  watermark_index_above_cloud_from_volumes w volumes c = Ok i_above ->
  active w i_above \/ i_above = n_active_watermarks w.
Proof.
  unfold watermark_index_above_cloud_from_volumes. intros H.
  ok_step H as [j |] Hj; injection H as <-; [left | right; reflexivity].
  apply index_search_range in Hj. unfold active. lia.
Qed.

(** Close a goal [empty_from a t] from the writes that produced [a]. *)
Ltac cells_step :=
  first
    [ eapply empty_from_wr_below; [eassumption | nia |]
    | eapply empty_from_update_slice; [eassumption | nia |] ].
Ltac cells :=
  repeat cells_step;
  (eapply empty_from_le; [| eassumption]; nia).

Lemma make_room_below_cells (m : TrapManager) (w w' : Watermarks) :
  make_room_below m w = Ok w' ->
  cells_above_empty (n_traps m) w -> 1 <= n_active_watermarks w ->
  n_active_watermarks w' = n_active_watermarks w /\
  0 <= i_first_active_wmk w' <= i_first_active_wmk w /\
  empty_from (watermark_volumes w')
    (i_first_active_wmk w' + n_active_watermarks w' + 1) /\
  empty_from (watermark_fills w')
    ((i_first_active_wmk w' + n_active_watermarks w' + 1) * n_traps m).
Proof.
  unfold make_room_below. intros H (Hi & Hn & Hv & Hf) Hna.
  destruct (Z.ltb_spec 0 (i_first_active_wmk w)) as [Hpos | Hzero].
  - injection H as <-. simpl.
    replace (i_first_active_wmk w - 1 + n_active_watermarks w + 1)
      with (i_first_active_wmk w + n_active_watermarks w) by lia.
    repeat split; try lia; assumption.
  - apply (copy_paste_up_cells _ _ _ _ _ _ H Hv) in Hf as (-> & -> & Hv' & Hf').
    repeat split; try lia; assumption.
Qed.

Lemma full_capture_cells (m : TrapManager) (w w' : Watermarks) (c : Q) (i_above : Z) :
  full_capture m w c i_above = Ok w' ->
  cells_above_empty (n_traps m) w ->
  active w i_above \/ i_above = n_active_watermarks w ->
  cells_above_empty (n_traps m) w'.
Proof.
  unfold full_capture, active. intros H Hw Hia.
  pose proof (n_traps_nonneg m) as Hnt.
  destruct (Z.eqb_spec (n_active_watermarks w) 0) as [Hz | Hnz].
  { destruct Hw as (Hi & Hn & Hv & Hf).
    ok_step H as volumes Hwr. ok_step H as fills Hsl. injection H as <-.
    unfold cells_above_empty; simpl. repeat split; try lia; cells. }
  destruct (Z.eqb_spec i_above (i_first_active_wmk w)) as [Hbelow | Hnb].
  { ok_step H as w1 Hroom.
    apply make_room_below_cells in Hroom as (Hna & Hi1 & Hv & Hf);
      [| exact Hw | destruct Hw; lia].
    destruct Hw as (Hi & Hn & _ & _). simpl in H.
    ok_step H as volumes Hwr. ok_step H as fills Hsl. ok_step H as v Hrd.
    ok_step H as volumes' Hwr'. injection H as <-.
    unfold cells_above_empty; simpl. repeat split; try lia.
    - replace (i_first_active_wmk w1 + (n_active_watermarks w1 + 1))
        with (i_first_active_wmk w1 + n_active_watermarks w1 + 1) by lia. cells.
    - replace (i_first_active_wmk w1 + (n_active_watermarks w1 + 1))
        with (i_first_active_wmk w1 + n_active_watermarks w1 + 1) by lia. cells. }
  destruct Hw as (Hi & Hn & Hv & Hf).
  destruct (Z.eqb_spec i_above (i_first_active_wmk w + n_active_watermarks w)) as [Habove | Hna].
  { simpl in H. ok_step H as volumes Hwr. ok_step H as fills Hsl. injection H as <-.
    unfold cells_above_empty; simpl. repeat split; try lia; cells. }
  simpl in H. ok_step H as total Hsum. ok_step H as volumes Hwr. simpl in H.
  ok_step H as volumes' Hwr'. ok_step H as fills Hsl. injection H as <-.
  unfold cells_above_empty; simpl. repeat split; try lia; cells.
Qed.

Lemma partial_capture_cells (m : TrapManager) (w w' : Watermarks) (c enough : Q)
    (i_above : Z) :
  partial_capture m w c i_above enough = Ok w' ->
  cells_above_empty (n_traps m) w ->
  active w i_above \/ i_above = n_active_watermarks w ->
  cells_above_empty (n_traps m) w'.
Proof.
  unfold partial_capture, active. intros H Hw Hia.
  pose proof (n_traps_nonneg m) as Hnt.
  destruct (Z.eqb_spec (n_active_watermarks w) 0) as [Hz | Hnz].
  { destruct Hw as (Hi & Hn & Hv & Hf).
    ok_step H as volumes Hwr. ok_step H as fills Hsl. injection H as <-.
    unfold cells_above_empty; simpl. repeat split; try lia; cells. }
  destruct (Z.eqb_spec i_above (i_first_active_wmk w)) as [Hbelow | Hnb].
  { ok_step H as w1 Hroom.
    apply make_room_below_cells in Hroom as (Hna & Hi1 & Hv & Hf);
      [| exact Hw | destruct Hw; lia].
    destruct Hw as (Hi & Hn & _ & _). simpl in H.
    ok_step H as volumes Hwr. ok_step H as fills Hsl. ok_step H as v Hrd.
    ok_step H as volumes' Hwr'. injection H as <-.
    unfold cells_above_empty; simpl. repeat split; try lia.
    - replace (i_first_active_wmk w1 + (n_active_watermarks w1 + 1))
        with (i_first_active_wmk w1 + n_active_watermarks w1 + 1) by lia. cells.
    - replace (i_first_active_wmk w1 + (n_active_watermarks w1 + 1))
        with (i_first_active_wmk w1 + n_active_watermarks w1 + 1) by lia. cells. }
  destruct Hw as (Hi & Hn & Hv & Hf).
  destruct (Z.eqb_spec i_above (i_first_active_wmk w + n_active_watermarks w)) as [Habove | Hna].
  { ok_step H as below Hsum. ok_step H as volumes Hwr. simpl in H.
    ok_step H as fills Hsl. injection H as <-.
    unfold cells_above_empty; simpl. repeat split; try lia; cells. }
  ok_step H as w1 Hcopy.
  apply (copy_paste_up_cells _ _ _ _ _ _ Hcopy Hv) in Hf as (Hna1 & Hi1 & Hv1 & Hf1).
  ok_step H as below Hsum. ok_step H as volumes Hwr. ok_step H as v_new Hrd.
  ok_step H as v Hrd'. ok_step H as volumes' Hwr'. simpl in H.
  ok_step H as fills Hsl. injection H as <-.
  unfold cells_above_empty; simpl. rewrite Hna1, Hi1 in *.
  replace (i_first_active_wmk w + (n_active_watermarks w + 1))
    with (i_first_active_wmk w + n_active_watermarks w + 1) by lia.
  repeat split; try lia; cells.
Qed.

Lemma set_live_live (m : TrapManager) : set_live m (live m) = m.
Proof. destruct m; reflexivity. Qed.

(** Capture changes the watermarks only. *)
Lemma n_electrons_captured_cells (m m' : TrapManager) (n_free c : Q) :
  n_electrons_captured m n_free = Ok (c, m') ->
  exists w', m' = set_live m w' /\
    (cells_above_empty (n_traps m) (live m) -> cells_above_empty (n_traps m) w').
Proof.
  unfold n_electrons_captured. intros H.
  destruct (Qeq_bool _ 0).
  { injection H as <- <-. exists (live m). by rewrite set_live_live. }
  ok_step H as i_above Hidx. ok_step H as n_captured Hcount.
  apply watermark_index_range in Hidx.
  destruct (at_least_one _).
  - ok_step H as w' Hfull. injection H as <- <-. exists w'. split; [reflexivity |].
    intros Hw. eapply full_capture_cells; eauto.
  - destruct (divide n_free n_captured) as [enough | | |]; try discriminate.
    ok_step H as w' Hpart. injection H as <- <-. exists w'. split; [reflexivity |].
    intros Hw. eapply partial_capture_cells; eauto.
Qed.

Lemma n_electrons_released_and_captured_cells (m m' : TrapManager) (n_free d : Q) :
  n_electrons_released_and_captured m n_free = Ok (d, m') ->
  exists w', m' = set_live m w' /\
    (cells_above_empty (n_traps m) (live m) -> cells_above_empty (n_traps m) w').
Proof.
  unfold n_electrons_released_and_captured. intros H.
  ok_step H as [n_released m1] Hrel. ok_step H as [n_captured m2] Hcap.
  injection H as <- <-.
  destruct (n_electrons_released_cells _ _ _ _ Hrel (Z.le_refl _))
    as (fills & -> & Hfills).
  apply n_electrons_captured_cells in Hcap as (w' & -> & Hw').
  exists w'. split; [destruct m; reflexivity |].
  intros (Hi & Hn & Hv & Hf). apply Hw'. simpl.
  unfold cells_above_empty; simpl. auto.
Qed.

Lemma cells_above_empty_fresh (n a b : Z) :
  cells_above_empty n
    {| watermark_volumes := empty_array a; watermark_fills := empty_array b;
       n_active_watermarks := 0; i_first_active_wmk := 0 |}.
Proof.
  unfold cells_above_empty; simpl. repeat split; try lia; apply empty_array_empty.
Qed.

Lemma initialise_cells (ts : list Trap) (max_transfers : Z) (c : CCD) (p : list Q) :
  manager_cells (initialise ts max_transfers c p).
Proof. split; apply cells_above_empty_fresh. Qed.

Lemma apply_operation_cells (o : operation) (m m' : TrapManager) (out : list Q) :
  apply_operation o m = Ok (out, m') -> manager_cells m -> manager_cells m'.
Proof.
  intros H [Hl Hs]. destruct o as [| | | n]; simpl in H.
  - injection H as <- <-. split; [apply cells_above_empty_fresh | exact Hs].
  - injection H as <- <-. split; exact Hl.
  - injection H as <- <-. split; exact Hs.
  - ok_step H as [d m1] Hrc. injection H as <- <-.
    apply n_electrons_released_and_captured_cells in Hrc as (w' & -> & Hw').
    split; [exact (Hw' Hl) | exact Hs].
Qed.

Lemma run_cells (os : list operation) (m m' : TrapManager) (outs : list Q) :
  run os m = Ok (outs, m') -> manager_cells m -> manager_cells m'.
Proof.
  revert m outs. induction os as [| o os IH]; intros m outs H Hm; simpl in H.
  - by injection H as <- <-.
  - ok_step H as [out m1] Hop. ok_step H as [outs' m2] Hrun. injection H as <- <-.
    eapply IH; [exact Hrun |]. eapply apply_operation_cells; eauto.
Qed.

(** C5, as amended: after every sequence of public operations on an
    initialised manager, every cell of [watermark_volumes] and of
    [watermark_fills] from the top of the active window on holds the empty
    watermark. *)
Theorem cells_above_window_stay_empty
    (ts : list Trap) (max_transfers : Z) (c : CCD) (p : list Q)
    (os : list operation) (outs : list Q) (m : TrapManager) :
  run os (initialise ts max_transfers c p) = Ok (outs, m) ->
  cells_above_empty (n_traps m) (live m).
Proof.
  intros H. eapply run_cells in H; [exact (proj1 H) | apply initialise_cells].
Qed.

Lemma skipped_cells_are_not_emptied :
  exists m,
    transfers [512; 252; 765]%Q (manager_16 4) = Ok ([-8; 2; -6]%Q, m) /\
    live m = after_512_252_765 /\
    ~ inactive_cells_empty m.
Proof.
  exists (set_live (manager_16 4) after_512_252_765).
  split; [vm_compute; reflexivity |]. split; [reflexivity |].
  intros [Hv _]. specialize (Hv 0 (1 # 4)%Q).
  assert (H : (1 # 4 == 0)%Q); [| discriminate H].
  apply Hv; [unfold active; simpl; lia | reflexivity].
Qed.

Lemma cells_above_window_stay_empty_witness :
  let m := set_live (manager_16 4) after_512_252_765 in
  run (map ReleaseAndCapture [512; 252; 765]%Q)
      (initialise [instant_capture_trap 16 (ln 2)] 4 (linear_ccd 1024 0) [1 # 2]%Q)
    = Ok ([-8; 2; -6]%Q, m) /\
  cells_above_empty (n_traps m) (live m).
Proof.
  intros m.
  assert (H : run (map ReleaseAndCapture [512; 252; 765]%Q)
                (initialise [instant_capture_trap 16 (ln 2)] 4 (linear_ccd 1024 0)
                   [1 # 2]%Q)
              = Ok ([-8; 2; -6]%Q, m)) by (vm_compute; reflexivity).
  split; [exact H |].
  exact (cells_above_window_stay_empty _ _ _ _ _ _ _ H).
Defined.

(** ** Snapshots *)

Lemma n_electrons_released_with_stored (m : TrapManager) (s : Watermarks) :
  n_electrons_released (with_stored m s) =
  let* (r, m') := n_electrons_released m in Ok (r, with_stored m' s).
Proof.
  unfold n_electrons_released, n_traps; simpl.
  destruct (for_up _ _ _ _) as [[r fills] | |]; reflexivity.
Qed.

Lemma n_electrons_captured_with_stored (m : TrapManager) (s : Watermarks) (n : Q) :
  n_electrons_captured (with_stored m s) n =
  let* (c, m') := n_electrons_captured m n in Ok (c, with_stored m' s).
Proof.
  unfold n_electrons_captured; simpl.
  destruct (Qeq_bool _ 0); [reflexivity |].
  destruct (watermark_index_above_cloud_from_volumes _ _ _) as [i_above | |];
    try reflexivity; simpl.
  change (n_capturable (with_stored m s)) with (n_capturable m).
  destruct (n_capturable m _ _ _) as [n_captured | |]; try reflexivity; simpl.
  destruct (at_least_one _).
  - change (full_capture (with_stored m s)) with (full_capture m).
    destruct (full_capture m _ _ _) as [w' | |]; reflexivity.
  - destruct (divide n n_captured) as [enough | | |]; try reflexivity.
    change (partial_capture (with_stored m s)) with (partial_capture m).
    destruct (partial_capture m _ _ _ _) as [w' | |]; reflexivity.
Qed.

Lemma n_electrons_released_and_captured_with_stored
    (m : TrapManager) (s : Watermarks) (n : Q) :
  n_electrons_released_and_captured (with_stored m s) n =
  let* (d, m') := n_electrons_released_and_captured m n in Ok (d, with_stored m' s).
Proof.
  unfold n_electrons_released_and_captured.
  rewrite n_electrons_released_with_stored.
  destruct (n_electrons_released m) as [[r m1] | |]; try reflexivity; simpl.
  rewrite n_electrons_captured_with_stored.
  destruct (n_electrons_captured m1 _) as [[c m2] | |]; reflexivity.
Qed.

Lemma observe_cons (out : list Q) (r : result (list Q * TrapManager)) :
  observe (let* (outs, m) := r in Ok (out ++ outs, m)) =
  let* (outs, w) := observe r in Ok (out ++ outs, w).
Proof. destruct r as [[outs m] | |]; reflexivity. Qed.

(** Until the next [Store] or [Restore], a run does not depend on the
    snapshot in store. *)
Lemma run_with_stored (os : list operation) (m : TrapManager) (s : Watermarks) :
  restores_follow_store os = true ->
  observe (run os (with_stored m s)) = observe (run os m).
Proof.
  revert m. induction os as [| o os IH]; intros m Hos; [reflexivity |].
  destruct o as [| | | n]; simpl in Hos; try discriminate.
  - change (observe (let* (outs, m') := run os (with_stored (reset_trap_states m) s)
                     in Ok ([] ++ outs, m')) =
            observe (let* (outs, m') := run os (reset_trap_states m)
                     in Ok ([] ++ outs, m'))).
    rewrite !observe_cons. by rewrite IH.
  - reflexivity.
  - change (observe (let* (out, m1) :=
                       (let* (d, m') := n_electrons_released_and_captured (with_stored m s) n
                        in Ok ([d], m'))
                     in let* (outs, m2) := run os m1 in Ok (out ++ outs, m2)) =
            observe (let* (out, m1) :=
                       (let* (d, m') := n_electrons_released_and_captured m n
                        in Ok ([d], m'))
                     in let* (outs, m2) := run os m1 in Ok (out ++ outs, m2))).
    rewrite n_electrons_released_and_captured_with_stored.
    destruct (n_electrons_released_and_captured m n) as [[d m1] | |]; try reflexivity.
    cbn [bind]. rewrite !observe_cons. by rewrite IH.
Qed.

Lemma reset_is_fresh_with_stored (m : TrapManager) :
  initialised_instant_capture m ->
  reset_trap_states m = with_stored (fresh_like m) (stored m).
Proof.
  intros [Hper Hn]. destruct m; simpl in *. subst.
  unfold reset_trap_states, fresh_like, initialise, with_stored; simpl.
  reflexivity.
Qed.

(** C6, as amended: [reset_trap_states] leaves the four watermark members
    equal to those of a freshly initialised manager of the same settings,
    and every later sequence of operations in which no restore comes before
    the first store returns the same values and ends in the same
    watermarks. *)
Theorem reset_like_fresh_until_restore (m : TrapManager) (os : list operation) :
  initialised_instant_capture m ->
  restores_follow_store os = true ->
  live (reset_trap_states m) = live (fresh_like m) /\
  observe (run os (reset_trap_states m)) = observe (run os (fresh_like m)).
Proof.
  intros Hm Hos. rewrite (reset_is_fresh_with_stored m Hm). split; [reflexivity |].
  by apply run_with_stored.
Qed.

Lemma reset_like_fresh_until_restore_witness :
  let m := manager_16_with_snapshot in
  let os := [ReleaseAndCapture 512; Store; Restore] in
  initialised_instant_capture m /\ restores_follow_store os = true /\
  live (reset_trap_states m) = live (fresh_like m) /\
  observe (run os (reset_trap_states m)) = observe (run os (fresh_like m)).
Proof.
  intros m os.
  assert (Hm : initialised_instant_capture m) by (split; reflexivity).
  assert (Hos : restores_follow_store os = true) by reflexivity.
  split; [exact Hm |]. split; [exact Hos |].
  exact (reset_like_fresh_until_restore m os Hm Hos).
Defined.

(** The claim as stated fails: after [restore_trap_states] the reset manager
    holds its earlier snapshot, the fresh one holds empty arrays. *)
Lemma reset_differs_from_fresh_after_restore :
  run [ReleaseAndCapture 512; Store] (manager_16 4)
    = Ok ([-8]%Q, manager_16_with_snapshot) /\
  initialised_instant_capture manager_16_with_snapshot /\
  observe (run [Restore] (reset_trap_states manager_16_with_snapshot))
    = Ok ([], after_512) /\
  observe (run [Restore] (fresh_like manager_16_with_snapshot))
    = Ok ([], live (manager_16 4)) /\
  observe (run [Restore] (reset_trap_states manager_16_with_snapshot)) <>
  observe (run [Restore] (fresh_like manager_16_with_snapshot)).
Proof.
  split; [vm_compute; reflexivity |]. split; [split; reflexivity |].
  split; [reflexivity |]. split; [reflexivity |]. vm_compute. discriminate.
Qed.

(** ** Store and restore *)

(** C7: after [store_trap_states], a reset or a transfer, and
    [restore_trap_states], the four watermark members are those at the time
    of the store; restoring once more changes nothing. *)
Theorem restore_returns_stored_state
    (m m' : TrapManager) (o : operation) (out : list Q) :
  o = Reset \/ (exists n, o = ReleaseAndCapture n) ->
  apply_operation o (store_trap_states m) = Ok (out, m') ->
  live (restore_trap_states m') = live m /\
  restore_trap_states (restore_trap_states m') = restore_trap_states m'.
Proof.
  intros Ho H. split; [| reflexivity].
  destruct Ho as [-> | [n ->]]; simpl in H.
  - by injection H as <- <-.
  - ok_step H as [d m1] Hrc. injection H as <- <-.
    apply n_electrons_released_and_captured_cells in Hrc as (w' & -> & _).
    reflexivity.
Qed.

Lemma restore_returns_stored_state_witness :
  let m := set_live (manager_16 4) after_512_252_765 in
  let m' := with_stored (set_live (manager_16 4) after_512_252_765_890) after_512_252_765 in
  apply_operation (ReleaseAndCapture 890) (store_trap_states m) = Ok ([-1]%Q, m') /\
  live (restore_trap_states m') = live m /\
  restore_trap_states (restore_trap_states m') = restore_trap_states m'.
Proof.
  intros m m'.
  assert (H : apply_operation (ReleaseAndCapture 890) (store_trap_states m)
              = Ok ([-1]%Q, m')) by (vm_compute; reflexivity).
  split; [exact H |].
  apply (restore_returns_stored_state m m' (ReleaseAndCapture 890) [-1]%Q); [| exact H].
  right. by exists 890%Q.
Defined.

(** ** Fill probabilities *)

Lemma set_probabilities_of_trap_lengths (i n : nat) (t : Trap) (dt : R)
    (fp : FillProbabilities) :
  lengths_at_least fp n -> lengths_at_least (set_probabilities_of_trap i t dt fp) n.
Proof.
  unfold lengths_at_least, set_probabilities_of_trap; simpl.
  rewrite !length_insert. auto.
Qed.

Lemma set_probabilities_of_trap_same (i : nat) (t : Trap) (dt : R)
    (fp : FillProbabilities) :
  lengths_at_least fp (S i) ->
  entries (set_probabilities_of_trap i t dt fp) i = Some (probabilities_of t dt).
Proof.
  intros (H1 & H2 & H3 & H4).
  unfold entries, set_probabilities_of_trap, probabilities_of; simpl.
  rewrite !list_lookup_insert_eq by lia. reflexivity.
Qed.

Lemma set_probabilities_of_trap_other (i j : nat) (t : Trap) (dt : R)
    (fp : FillProbabilities) :
  i <> j -> entries (set_probabilities_of_trap i t dt fp) j = entries fp j.
Proof.
  intros Hne. unfold entries, set_probabilities_of_trap; simpl.
  rewrite !list_lookup_insert_ne by exact Hne. reflexivity.
Qed.

(** The loop started at species [k] does not touch the entries below [k]. *)
Lemma set_probabilities_loop_below (ts : list Trap) (k j : nat) (dt : R)
    (fp : FillProbabilities) :
  (j < k)%nat -> entries (set_probabilities_loop ts k dt fp) j = entries fp j.
Proof.
  revert k fp. induction ts as [| t ts IH]; intros k fp Hj; simpl; [reflexivity |].
  rewrite IH by lia. apply set_probabilities_of_trap_other. lia.
Qed.

Lemma set_probabilities_loop_at (ts : list Trap) (k j : nat) (dt : R)
    (fp : FillProbabilities) (t : Trap) :
  ts !! j = Some t -> lengths_at_least fp (k + length ts) ->
  entries (set_probabilities_loop ts k dt fp) (k + j) = Some (probabilities_of t dt).
Proof.
  revert k j fp. induction ts as [| t0 ts IH]; intros k j fp Hj Hlen; [discriminate |].
  simpl in *. destruct j as [| j]; simpl in Hj.
  - injection Hj as ->. rewrite Nat.add_0_r.
    rewrite set_probabilities_loop_below by lia.
    apply set_probabilities_of_trap_same.
    destruct Hlen as (H1 & H2 & H3 & H4). repeat split; lia.
  - replace (k + S j)%nat with (S k + j)%nat by lia.
    apply IH; [exact Hj |]. apply set_probabilities_of_trap_lengths.
    destruct Hlen as (H1 & H2 & H3 & H4). repeat split; lia.
Qed.

(** C9: for every species [t] of the manager and every dwell time, the four
    probabilities that [set_fill_probabilities_from_dwell_time] stores for it
    are those of the formulas, with [R = capture_rate + emission_rate]. *)
Theorem fill_probabilities_formulas (ts : list Trap) (dwell_time : R) (i_trap : nat)
    (t : Trap) :
  ts !! i_trap = Some t ->
  let fp := set_fill_probabilities_from_dwell_time ts dwell_time in
  let total_rate := (capture_rate t + emission_rate t)%R in
  (capture_rate t = 0%R -> fill_probabilities_from_empty fp !! i_trap = Some 1%R) /\
  (capture_rate t <> 0%R ->
     fill_probabilities_from_empty fp !! i_trap =
     Some (capture_rate t * ((1 - exp (- total_rate * dwell_time)) / total_rate))%R) /\
  fill_probabilities_from_full fp !! i_trap =
    Some (1 - emission_rate t * ((1 - exp (- total_rate * dwell_time)) / total_rate))%R /\
  fill_probabilities_from_release fp !! i_trap =
    Some (exp (- emission_rate t * dwell_time)) /\
  empty_probabilities_from_release_R fp !! i_trap =
    Some (1 - exp (- emission_rate t * dwell_time))%R.
Proof.
  intros Ht fp total_rate.
  assert (Hentries : entries fp i_trap = Some (probabilities_of t dwell_time)).
  { subst fp. unfold set_fill_probabilities_from_dwell_time.
    apply (set_probabilities_loop_at ts 0 i_trap); [exact Ht |].
    unfold lengths_at_least; simpl. rewrite !length_replicate. lia. }
  unfold entries, probabilities_of in Hentries.
  destruct (fill_probabilities_from_empty fp !! i_trap) as [a |]; [| discriminate].
  destruct (fill_probabilities_from_full fp !! i_trap) as [b |]; [| discriminate].
  destruct (fill_probabilities_from_release fp !! i_trap) as [c |]; [| discriminate].
  destruct (empty_probabilities_from_release_R fp !! i_trap) as [d |]; [| discriminate].
  injection Hentries as -> -> -> ->. fold total_rate.
  repeat split; try reflexivity.
  - intros Hc. destruct (Req_dec_T (capture_rate t) 0); [reflexivity | contradiction].
  - intros Hc. destruct (Req_dec_T (capture_rate t) 0); [contradiction | reflexivity].
Qed.

Lemma fill_probabilities_formulas_witness :
  let t := instant_capture_trap 16 (ln 2) in
  let fp := set_fill_probabilities_from_dwell_time [t] 1%R in
  let total_rate := (capture_rate t + emission_rate t)%R in
  [t] !! 0%nat = Some t /\
  (capture_rate t = 0%R -> fill_probabilities_from_empty fp !! 0%nat = Some 1%R) /\
  (capture_rate t <> 0%R ->
     fill_probabilities_from_empty fp !! 0%nat =
     Some (capture_rate t * ((1 - exp (- total_rate * 1)) / total_rate))%R) /\
  fill_probabilities_from_full fp !! 0%nat =
    Some (1 - emission_rate t * ((1 - exp (- total_rate * 1)) / total_rate))%R /\
  fill_probabilities_from_release fp !! 0%nat = Some (exp (- emission_rate t * 1)) /\
  empty_probabilities_from_release_R fp !! 0%nat =
    Some (1 - exp (- emission_rate t * 1))%R.
Proof.
  intros t fp total_rate. split; [reflexivity |].
  exact (fill_probabilities_formulas [t] 1%R 0%nat t eq_refl).
Defined.

(** The release probability of the example managers: a species with
    [emission_rate = ln 2] releases half of its electrons in a dwell time
    of 1, as in the demo of main.cpp. *)
Lemma half_released_per_unit_dwell_time (dens : Q) :
  empty_probabilities_from_release_R
    (set_fill_probabilities_from_dwell_time [instant_capture_trap dens (ln 2)] 1%R)
  = [(1 / 2)%R].
Proof.
  unfold set_fill_probabilities_from_dwell_time; simpl. f_equal.
  replace (- ln 2 * 1)%R with (- ln 2)%R by ring.
  rewrite exp_Ropp, exp_ln by lra. lra.
Qed.

(** ** The index above the cloud *)

Lemma Qlt_bool_iff (a b : Q) : Qlt_bool a b = true <-> (a < b)%Q.
Proof.
  unfold Qlt_bool. rewrite negb_true_iff, <- not_true_iff_false, Qle_bool_iff.
  split; [apply Qnot_le_lt | apply Qlt_not_le].
Qed.

(** The sum loop started from an accumulator. *)
Lemma for_up_sum_step (volumes : list Q) (n : nat) (i : Z) (acc : Q) :
  for_up (S n) i (fun i_wmk total => let* v := rd volumes i_wmk in Ok (total + v)%D) acc =
  let* v := rd volumes i in
  for_up n (i + 1) (fun i_wmk total => let* v := rd volumes i_wmk in Ok (total + v)%D)
    (acc + v)%D.
Proof. simpl. destruct (rd volumes i); reflexivity. Qed.

Lemma index_search_spec (volumes : list Q) (c : Q) (n : nat) (i : Z) (cum : Q)
    (found : option Z) :
  index_search volumes c n i cum = Ok found ->
  let sum_to := fun k =>
    for_up (Z.to_nat (k - i + 1)) i
      (fun i_wmk total => let* v := rd volumes i_wmk in Ok (total + v)%D) cum in
  match found with
  | Some j =>
      i <= j < i + Z.of_nat n /\
      (exists total, sum_to j = Ok total /\ (c < total)%Q) /\
      (forall k total, i <= k < j -> sum_to k = Ok total -> ~ (c < total)%Q)
  | None =>
      forall k total, i <= k < i + Z.of_nat n -> sum_to k = Ok total -> ~ (c < total)%Q
  end.
Proof.
  revert i cum found. induction n as [| n IH]; intros i cum found H; simpl in H.
  - injection H as <-. intros sum_to k total Hk. lia.
  - ok_step H as v Hv.
    assert (Hstep : forall k, i <= k ->
      for_up (Z.to_nat (k - i + 1)) i
        (fun i_wmk total => let* v := rd volumes i_wmk in Ok (total + v)%D) cum =
      for_up (Z.to_nat (k - (i + 1) + 1)) (i + 1)
        (fun i_wmk total => let* v := rd volumes i_wmk in Ok (total + v)%D) (cum + v)%D).
    { intros k Hk. replace (Z.to_nat (k - i + 1)) with (S (Z.to_nat (k - (i + 1) + 1))) by lia.
      rewrite for_up_sum_step, Hv. reflexivity. }
    destruct (Qlt_bool c (cum + v)%D) eqn:Hlt.
    + injection H as <-. intros sum_to. split; [lia |]. split; [| intros; lia].
      exists (cum + v)%D. split; [| by apply Qlt_bool_iff].
      subst sum_to. cbn beta. rewrite Hstep by lia.
      replace (Z.to_nat (i - (i + 1) + 1)) with 0%nat by lia. reflexivity.
    + specialize (IH _ _ _ H). cbn zeta in IH.
      assert (Hfirst : forall k total, k = i ->
        for_up (Z.to_nat (k - i + 1)) i
          (fun i_wmk total => let* v := rd volumes i_wmk in Ok (total + v)%D) cum = Ok total ->
        ~ (c < total)%Q).
      { intros k total -> Hs. rewrite Hstep in Hs by lia.
        replace (Z.to_nat (i - (i + 1) + 1)) with 0%nat in Hs by lia.
        injection Hs as <-. rewrite <- Qlt_bool_iff, Hlt. discriminate. }
      destruct found as [j |]; intros sum_to; subst sum_to; cbn beta.
      * destruct IH as (Hj & (total & Hs & Hc) & Hbelow).
        split; [lia |]. split.
        -- exists total. rewrite Hstep by lia. auto.
        -- intros k t Hk Hs'. destruct (Z.eq_dec k i) as [-> | Hne].
           ++ by apply (Hfirst i).
           ++ rewrite Hstep in Hs' by lia. apply (Hbelow k t); [lia | exact Hs'].
      * intros k t Hk Hs'. destruct (Z.eq_dec k i) as [-> | Hne].
        -- by apply (Hfirst i).
        -- rewrite Hstep in Hs' by lia. apply (IH k t); [lia | exact Hs'].
Qed.

(** X13: what the function computes: the smallest active index whose
    cumulative volume is strictly above the cloud; and, when there is none,
    the number of active watermarks. *)
Lemma watermark_index_above_cloud_spec (w : Watermarks) (volumes : list Q) (c : Q)
    (i_above : Z) :
  watermark_index_above_cloud_from_volumes w volumes c = Ok i_above ->
  (active w i_above /\ reaches_above w c i_above /\
   forall k, active w k -> k < i_above -> ~ reaches_above w c k) \/
  (i_above = n_active_watermarks w /\ forall k, active w k -> ~ reaches_above w c k).
Proof.
  unfold watermark_index_above_cloud_from_volumes. intros H.
  ok_step H as found Hfound. apply index_search_spec in Hfound. cbn zeta in Hfound.
  unfold reaches_above, cumulative_volume, sum_volumes, active.
  destruct found as [j |]; injection H as <-.
  - left. destruct Hfound as (Hj & Htotal & Hbelow). split; [lia |]. split; [exact Htotal |].
    intros k Hk Hlt (total & Hs & Hc). apply (Hbelow k total); [lia | exact Hs | exact Hc].
  - right. split; [reflexivity |].
    intros k Hk (total & Hs & Hc). apply (Hfound k total); [lia | exact Hs | exact Hc].
Qed.

(** The value returned by a transfer is the released minus the captured
    electrons. *)
Lemma returned_value_is_released_minus_captured (m m' : TrapManager) (n_free d : Q) :
  n_electrons_released_and_captured m n_free = Ok (d, m') ->
  exists n_released n_captured m1,
    n_electrons_released m = Ok (n_released, m1) /\
    n_electrons_captured m1 (n_free + n_released)%D = Ok (n_captured, m') /\
    d = (n_released - n_captured)%D.
Proof.
  unfold n_electrons_released_and_captured. intros H.
  ok_step H as [n_released m1] Hrel. ok_step H as [n_captured m2] Hcap.
  injection H as <- <-. eauto 6.
Qed.

(** ** Runs that leave the specification *)

(** Evaluate a closed statement about a run. *)
Ltac evaluated := vm_compute; reflexivity.

(** C1: once a capture has skipped overwritten watermarks
    ([i_first_active_wmk = 1]), a cloud above the only active watermark gets
    the index [n_active_watermarks = 1], not
    [i_first_active_wmk + n_active_watermarks = 2]. *)
Theorem index_above_cloud_drops_first_active :
  exists m3 m,
    transfers [512; 252; 765]%Q (manager_16 4) = Ok ([-8; 2; -6]%Q, m3) /\
    n_electrons_released m3 = Ok (6%Q, m) /\
    live m = after_512_252_765_released /\
    i_first_active_wmk (live m) + n_active_watermarks (live m) = 2 /\
    cloud_fractional_volume_from_electrons (ccd m) (890 + 6)%D = (7 # 8)%Q /\
    cumulative_volume (live m) 1 = Ok (3 # 4)%Q /\
    watermark_index_above_cloud_from_volumes (live m) (watermark_volumes (live m)) (7 # 8)
      = Ok 1.
Proof.
  exists (set_live (manager_16 4) after_512_252_765),
         (set_live (manager_16 4) after_512_252_765_released).
  split; [evaluated |]. split; [evaluated |].
  repeat split; evaluated.
Qed.

(** Split a read of a literal array of at most six cells into its cases. *)
Ltac read_cases H :=
  apply rd_ok in H as [? H];
  let k := fresh "k" in
  let Hk := fresh "Hk" in
  match type of H with
  | _ !! Z.to_nat ?i = _ =>
      remember (Z.to_nat i) as k eqn:Hk;
      destruct k as [| [| [| [| [| [| k]]]]]]; simpl in H; try discriminate H;
      injection H as <-
  end.

Lemma manager_16_skipped_valid :
  inactive_cells_empty manager_16_skipped /\
  volumes_in_unit_interval (live manager_16_skipped) /\
  fills_in_unit_interval manager_16_skipped.
Proof.
  unfold inactive_cells_empty, volumes_in_unit_interval, fills_in_unit_interval, active.
  change (n_traps manager_16_skipped) with 1. simpl.
  split; [split |split].
  - intros i v Hi H. read_cases H; try reflexivity. lia.
  - intros i s f Hi Hs H. read_cases H; try reflexivity. lia.
  - intros i v Hi H. read_cases H; try lia. split; unfold Qle; simpl; lia.
  - intros i s f Hi Hs H. read_cases H; try lia. split; unfold Qle; simpl; lia.
Qed.

(** C2: the increase of the trapped electrons is not captured minus
    released, (1) in the fifth transfer of a run from the initialised state,
    where the traps gain 9/2 electrons (from 12 to 33/2) while the call
    reports 6 released and none captured, and (2) from a state that
    satisfies the invariants I1 to I4, where they gain 8. *)
Theorem transfer_loses_count_of_captured :
  (exists m4 m5,
     transfers [512; 252; 125; 766]%Q (manager_16 5) = Ok ([-8; 2; 2; -8]%Q, m4) /\
     live m4 = after_512_252_125_766 /\
     n_electrons_released_and_captured m4 890 = Ok (6%Q, m5) /\
     live m5 = after_512_252_125_766_890 /\
     n_trapped_electrons m4 = Ok 12%Q /\
     n_trapped_electrons m5 = Ok (33 # 2)%Q /\
     ~ ((33 # 2) - 12 == - 6)%Q) /\
  (inactive_cells_empty manager_16_skipped /\
   volumes_in_unit_interval (live manager_16_skipped) /\
   fills_in_unit_interval manager_16_skipped /\
   exists m',
     n_electrons_released_and_captured manager_16_skipped 890 = Ok (6%Q, m') /\
     live m' = skipped_and_empty_890 /\
     n_trapped_electrons manager_16_skipped = Ok 12%Q /\
     n_trapped_electrons m' = Ok 20%Q /\
     ~ (20 - 12 == - 6)%Q).
Proof.
  split.
  - exists (set_live (manager_16 5) after_512_252_125_766),
           (set_live (manager_16 5) after_512_252_125_766_890).
    split; [evaluated |]. split; [reflexivity |]. split; [evaluated |].
    split; [reflexivity |]. split; [evaluated |]. split; [evaluated |]. discriminate.
  - destruct manager_16_skipped_valid as (H4 & H2 & H3).
    split; [exact H4 |]. split; [exact H2 |]. split; [exact H3 |].
    exists (set_live (manager_16 5) skipped_and_empty_890).
    split; [evaluated |]. split; [reflexivity |]. split; [evaluated |].
    split; [evaluated |]. discriminate.
Qed.

(** C3: after the fourth transfer of this run the second active watermark
    has volume -1/8. *)
Theorem active_volume_becomes_negative :
  exists m,
    transfers [512; 252; 765; 890]%Q (manager_16 4) = Ok ([-8; 2; -6; -1]%Q, m) /\
    live m = after_512_252_765_890 /\
    active (live m) 1 /\
    rd (watermark_volumes (live m)) 1 = Ok (-1 # 8)%Q /\
    ~ volumes_in_unit_interval (live m).
Proof.
  exists (set_live (manager_16 4) after_512_252_765_890).
  split; [evaluated |]. split; [reflexivity |].
  split; [unfold active; simpl; lia |]. split; [reflexivity |].
  intros H. destruct (H 1 (-1 # 8)%Q) as [H0 _];
    [unfold active; simpl; lia | reflexivity | apply H0; reflexivity].
Qed.

(** C4: after the sixth transfer of this run the fill of the first active
    watermark is -474/103. *)
Theorem fill_becomes_negative :
  exists m,
    transfers [832; 704; 384; 1024; 896; 832]%Q (manager_2048 6 (1 # 8))
      = Ok ([-832; -704; -15; -497; 256; -832]%Q, m) /\
    live m = after_six_transfers /\
    active (live m) 0 /\
    rd (watermark_fills (live m)) 0 = Ok (-474 # 103)%Q /\
    ~ fills_in_unit_interval m.
Proof.
  exists (set_live (manager_2048 6 (1 # 8)) after_six_transfers).
  split; [evaluated |]. split; [reflexivity |].
  split; [unfold active; simpl; lia |]. split; [reflexivity |].
  intros H. destruct (H 0 0 (-474 # 103)%Q) as [H0 _];
    [unfold active; simpl; lia | unfold n_traps; simpl; lia | reflexivity
    | apply H0; reflexivity].
Qed.

(** C8: with [max_n_transfers = 4] the arrays have 5 watermarks; the fourth
    transfer of this run is a partial capture ([enough = 76/97]) with the
    cloud between three active watermarks; its copy-paste loop starts at
    index [2 - 1 + 3 - 0 = 4] and writes [watermark_volumes[5]]. *)
Theorem fourth_transfer_writes_past_capacity :
  exists m3 m,
    transfers [256; 384; 448]%Q (manager_2048 4 (1 # 2))
      = Ok ([-256; -384; -448]%Q, m3) /\
    n_watermarks m3 = max_n_transfers m3 * n_watermarks_per_transfer m3 + 1 /\
    length (watermark_volumes (live m3)) = 5%nat /\
    n_electrons_released m3 = Ok (544%Q, m) /\
    live m = after_256_384_448_released /\
    cloud_fractional_volume_from_electrons (ccd m) (96 + 544)%D = (5 # 8)%Q /\
    watermark_index_above_cloud_from_volumes (live m) (watermark_volumes (live m)) (5 # 8)
      = Ok 2 /\
    n_capturable m (live m) (5 # 8) 2 = Ok (15520 # 19)%Q /\
    divide (96 + 544)%D (15520 # 19) = Finite (76 # 97) /\
    copy_paste_up m (2 - 1 + n_active_watermarks (live m) - i_first_active_wmk (live m))
      2 (live m) = OutOfRange /\
    wr (watermark_volumes (live m)) (4 + 1) 0 = OutOfRange /\
    n_electrons_released_and_captured m3 96 = OutOfRange /\
    transfers [256; 384; 448; 96]%Q (manager_2048 4 (1 # 2)) = OutOfRange.
Proof.
  exists (set_live (manager_2048 4 (1 # 2)) after_256_384_448),
         (set_live (manager_2048 4 (1 # 2)) after_256_384_448_released).
  split; [evaluated |]. repeat split; evaluated.
Qed.

(** A zero divisor does not stop [n_electrons_captured]: with free electrons
    the quotient is taken as [+infinity >= 1.0] and the full capture runs,
    reporting the zero as the number of captured electrons. *)
Lemma zero_divisor_runs_full_capture (m : TrapManager) (n_free capturable : Q) (i_above : Z) :
  let cloud := cloud_fractional_volume_from_electrons (ccd m) n_free in
  ~ (cloud == 0)%Q ->
  watermark_index_above_cloud_from_volumes (live m) (watermark_volumes (live m)) cloud
  = Ok i_above ->
  n_capturable m (live m) cloud i_above = Ok capturable ->
  (capturable == 0)%Q -> (0 < n_free)%Q ->
  n_electrons_captured m n_free
  = let* w := full_capture m (live m) cloud i_above in Ok (capturable, set_live m w).
Proof.
  intros cloud Hcloud Hindex Hcap Hzero Hfree. unfold n_electrons_captured. fold cloud.
  destruct (Qeq_bool cloud 0) eqn:E; [apply Qeq_bool_iff in E; contradiction |].
  rewrite Hindex. cbn [bind]. rewrite Hcap. cbn [bind]. unfold divide.
  apply Qeq_bool_iff in Hzero. rewrite Hzero.
  apply Qlt_bool_iff in Hfree. rewrite Hfree. reflexivity.
Qed.

(** C10: the divisor of [enough] is zero for a positive cloud volume, both
    for a species of density 0 in a fresh manager and for a capture into a
    watermark that an earlier one has filled; [n_electrons_captured] goes on
    with the quotient [+infinity]: it reports 0 captured electrons and has
    run the full capture, which writes a new watermark. *)
Theorem quotient_divisor_can_be_zero :
  (let m := manager_no_traps in
   cloud_fractional_volume_from_electrons (ccd m) 512 = (1 # 2)%Q /\
   watermark_index_above_cloud_from_volumes (live m) (watermark_volumes (live m)) (1 # 2)
     = Ok 0 /\
   n_capturable m (live m) (1 # 2) 0 = Ok 0%Q /\
   divide 512 0 = PlusInfinity /\
   n_active_watermarks (live m) = 0 /\
   n_electrons_captured m 512 = Ok (0%Q, set_live m after_512)) /\
  (exists m,
     n_electrons_captured (manager_16 4) 512 = Ok (8%Q, m) /\
     live m = after_512 /\
     cloud_fractional_volume_from_electrons (ccd m) 512 = (1 # 2)%Q /\
     watermark_index_above_cloud_from_volumes (live m) (watermark_volumes (live m)) (1 # 2)
       = Ok 1 /\
     n_capturable m (live m) (1 # 2) 1 = Ok 0%Q /\
     divide 512 0 = PlusInfinity /\
     n_electrons_captured m 512 = Ok (0%Q, m)) /\
  (let m := set_live (manager_16 4) after_512 in
   cloud_fractional_volume_from_electrons (ccd m) 256 = (1 # 4)%Q /\
   watermark_index_above_cloud_from_volumes (live m) (watermark_volumes (live m)) (1 # 4)
     = Ok 0 /\
   n_capturable m (live m) (1 # 4) 0 = Ok 0%Q /\
   divide 256 0 = PlusInfinity /\
   n_electrons_captured m 256 = Ok (0%Q, set_live m after_512_captured_256)).
Proof.
  split; [| split].
  - repeat split; evaluated.
  - exists (set_live (manager_16 4) after_512).
    split; [evaluated |]. repeat split; evaluated.
  - repeat split; evaluated.
Qed.

(** * Further properties of the code *)

(** ** Loops and accesses that return *)

(** A loop whose body returns on every state that satisfies the invariant
    returns. *)
Lemma for_up_returns {S : Type} (P : Z -> S -> Prop) (body : Z -> S -> result S)
    (n : nat) (i : Z) (s : S) :
  (forall j s1, i <= j < i + Z.of_nat n -> P j s1 ->
     exists s2, body j s1 = Ok s2 /\ P (j + 1) s2) ->
  P i s -> exists s', for_up n i body s = Ok s' /\ P (i + Z.of_nat n) s'.
Proof.
  revert i s. induction n as [| n IH]; intros i s Hstep Hi; simpl.
  - exists s. split; [reflexivity |]. by replace (i + Z.of_nat 0) with i by lia.
  - destruct (Hstep i s) as (s1 & -> & H1); [lia | exact Hi |]. simpl.
    replace (i + Z.of_nat (Datatypes.S n)) with (i + 1 + Z.of_nat n) by lia.
    apply IH; [| exact H1]. intros j s2 Hj. apply Hstep. lia.
Qed.

Lemma rd_returns (a : list Q) (i : Z) :
  0 <= i < Z.of_nat (length a) -> exists x, rd a i = Ok x.
Proof.
  intros Hi. unfold rd. destruct (Z.ltb_spec i 0) as [| _]; [lia |].
  destruct (a !! Z.to_nat i) as [x |] eqn:E; [eauto |].
  apply lookup_ge_None in E. lia.
Qed.

Lemma wr_returns (a : list Q) (i : Z) (x : Q) :
  0 <= i < Z.of_nat (length a) ->
  exists a', wr a i x = Ok a' /\ length a' = length a.
Proof.
  intros Hi. unfold wr. destruct (Z.ltb_spec i 0) as [| _]; [lia |].
  destruct (Nat.ltb_spec (Z.to_nat i) (length a)) as [_ |]; [| lia].
  eexists. split; [reflexivity |]. apply length_insert.
Qed.

Lemma density_at_returns (ts : list Trap) (i_trap : Z) :
  0 <= i_trap < Z.of_nat (length ts) -> exists d, density_at ts i_trap = Ok d.
Proof. intros H. apply rd_returns. by rewrite length_map. Qed.

(** ** clamp *)

Lemma Qlt_bool_false_iff (a b : Q) : Qlt_bool a b = false <-> (b <= a)%Q.
Proof.
  unfold Qlt_bool. rewrite negb_false_iff. apply Qle_bool_iff.
Qed.

(** X1: between ordered limits [clamp] returns a value within the limits,
    and returns a value that is within them unchanged. *)
Theorem clamp_within_limits (value minimum maximum : Q) :
  (minimum <= maximum)%Q ->
  (minimum <= clamp value minimum maximum <= maximum)%Q /\
  ((minimum <= value <= maximum)%Q -> clamp value minimum maximum = value).
Proof.
  intros Hmm. unfold clamp.
  destruct (Qlt_bool value minimum) eqn:Hlo.
  - apply Qlt_bool_iff in Hlo. split.
    + split; [apply Qle_refl | exact Hmm].
    + intros [H _]. exfalso. apply (Qlt_not_le _ _ Hlo H).
  - apply Qlt_bool_false_iff in Hlo.
    destruct (Qlt_bool maximum value) eqn:Hhi.
    + apply Qlt_bool_iff in Hhi. split.
      * split; [exact Hmm | apply Qle_refl].
      * intros [_ H]. exfalso. apply (Qlt_not_le _ _ Hhi H).
    + apply Qlt_bool_false_iff in Hhi. split; [split; assumption | reflexivity].
Qed.

Lemma clamp_within_limits_witness :
  (0 <= 1)%Q /\
  (0 <= clamp (3 # 2) 0 1 <= 1)%Q /\
  ((0 <= (3 # 2) <= 1)%Q -> clamp (3 # 2) 0 1 = (3 # 2)%Q).
Proof.
  assert (H : (0 <= 1)%Q) by (unfold Qle; simpl; lia).
  split; [exact H |]. exact (clamp_within_limits (3 # 2) 0 1 H).
Defined.

(** X2: between ordered limits [clamp] is monotonic in the value. *)
Theorem clamp_monotonic (value value' minimum maximum : Q) :
  (minimum <= maximum)%Q -> (value <= value')%Q ->
  (clamp value minimum maximum <= clamp value' minimum maximum)%Q.
Proof.
  intros Hmm Hle. unfold clamp.
  destruct (Qlt_bool value minimum) eqn:Hlo;
    destruct (Qlt_bool value' minimum) eqn:Hlo';
    destruct (Qlt_bool maximum value) eqn:Hhi;
    destruct (Qlt_bool maximum value') eqn:Hhi';
    repeat match goal with
           | H : Qlt_bool _ _ = true |- _ => apply Qlt_bool_iff in H
           | H : Qlt_bool _ _ = false |- _ => apply Qlt_bool_false_iff in H
           end;
    lra.
Qed.

Lemma clamp_monotonic_witness :
  (0 <= 1)%Q /\ (1 # 2 <= 3 # 2)%Q /\ (clamp (1 # 2) 0 1 <= clamp (3 # 2) 0 1)%Q.
Proof.
  assert (H : (0 <= 1)%Q) by (unfold Qle; simpl; lia).
  assert (H' : (1 # 2 <= 3 # 2)%Q) by (unfold Qle; simpl; lia).
  split; [exact H |]. split; [exact H' |].
  exact (clamp_monotonic (1 # 2) (3 # 2) 0 1 H H').
Defined.

(** ** gettimelapsed *)

(** The two branches of [gettimelapsed]. *)
Lemma gettimelapsed_cases (start end_ : timeval) :
  let seconds := tv_sec end_ - tv_sec start in
  let microseconds := tv_usec end_ - tv_usec start in
  (microseconds < 0 ->
   (gettimelapsed start end_
    == inject_Z seconds - 1 + (1000000 - inject_Z microseconds) / 1000000)%Q) /\
  (0 <= microseconds ->
   (gettimelapsed start end_ == inject_Z seconds + inject_Z microseconds / 1000000)%Q).
Proof.
  intros ds du. unfold gettimelapsed. fold ds du.
  unfold double_add, double_div, double_sub.
  destruct (Qlt_bool (inject_Z du) 0) eqn:Hneg; repeat rewrite Qred_correct.
  - apply Qlt_bool_iff in Hneg. change 0%Q with (inject_Z 0) in Hneg.
    rewrite <- Zlt_Qlt in Hneg. split; [reflexivity | lia].
  - apply Qlt_bool_false_iff in Hneg. change 0%Q with (inject_Z 0) in Hneg.
    rewrite <- Zle_Qle in Hneg. split; [lia | reflexivity].
Qed.

(** X3: [gettimelapsed] returns the difference of the whole seconds plus the
    absolute value of the difference of the microseconds: the borrow is
    computed as [1e6 - microseconds], not [1e6 + microseconds]. *)
Theorem gettimelapsed_adds_absolute_microseconds (start end_ : timeval) :
  (gettimelapsed start end_ ==
   inject_Z (tv_sec end_ - tv_sec start)
   + inject_Z (Z.abs (tv_usec end_ - tv_usec start)) / 1000000)%Q.
Proof.
  destruct (gettimelapsed_cases start end_) as [Hneg Hpos].
  destruct (Z.lt_ge_cases (tv_usec end_ - tv_usec start) 0) as [H | H].
  - rewrite (Hneg H), Z.abs_neq, inject_Z_opp by lia. field.
  - rewrite (Hpos H), Z.abs_eq by lia. reflexivity.
Qed.

(** X4: when [end.tv_usec < start.tv_usec], the result of [gettimelapsed] is
    not the elapsed time: it is too large by twice the microseconds that
    are borrowed. *)
Theorem gettimelapsed_with_borrow (start end_ : timeval) :
  tv_usec end_ < tv_usec start ->
  (gettimelapsed start end_ ==
   (inject_Z (tv_sec end_ - tv_sec start)
    + inject_Z (tv_usec end_ - tv_usec start) / 1000000)
   + 2 * inject_Z (tv_usec start - tv_usec end_) / 1000000)%Q.
Proof.
  intros H. destruct (gettimelapsed_cases start end_) as [Hneg _].
  rewrite Hneg by lia.
  replace (tv_usec start - tv_usec end_) with (- (tv_usec end_ - tv_usec start)) by lia.
  rewrite inject_Z_opp. field.
Qed.

Lemma gettimelapsed_with_borrow_witness :
  let start := {| tv_sec := 10; tv_usec := 900000 |} in
  let end_ := {| tv_sec := 11; tv_usec := 100000 |} in
  tv_usec end_ < tv_usec start /\
  (gettimelapsed start end_ ==
   (inject_Z (tv_sec end_ - tv_sec start)
    + inject_Z (tv_usec end_ - tv_usec start) / 1000000)
   + 2 * inject_Z (tv_usec start - tv_usec end_) / 1000000)%Q.
Proof.
  intros start end_.
  assert (H : tv_usec end_ < tv_usec start) by (simpl; lia).
  split; [exact H |]. exact (gettimelapsed_with_borrow start end_ H).
Defined.

(** ** flatten *)

Lemma push_back_all (row vector : list Q) :
  fold_left (fun vector x => vector ++ [x]) row vector = vector ++ row.
Proof.
  revert vector. induction row as [| x row IH]; intros vector; simpl.
  - by rewrite app_nil_r.
  - rewrite IH, <- app_assoc. reflexivity.
Qed.

Lemma flatten_from (array : list (list Q)) (vector : list Q) :
  fold_left (fun vector row => fold_left (fun vector x => vector ++ [x]) row vector)
    array vector = vector ++ concat array.
Proof.
  revert vector. induction array as [| row array IH]; intros vector; simpl.
  - by rewrite app_nil_r.
  - rewrite IH, push_back_all, <- app_assoc. reflexivity.
Qed.

(** X5: [flatten] lays the rows out one after the other: for an array whose
    rows all have [n_col] entries, the result has [n_row * n_col] entries and
    entry [i_row * n_col + i_col] is [array[i_row][i_col]]. *)
Theorem flatten_is_row_major (array : list (list Q)) (n_col : nat) :
  (forall row, row ∈ array -> length row = n_col) ->
  length (flatten array) = (length array * n_col)%nat /\
  forall (i_row i_col : nat) (row : list Q) (x : Q),
    array !! i_row = Some row -> row !! i_col = Some x ->
    flatten array !! (i_row * n_col + i_col)%nat = Some x.
Proof.
  unfold flatten. rewrite flatten_from. simpl.
  induction array as [| row0 array IH]; intros Hrows.
  - split; [reflexivity | intros i_row i_col row x H; discriminate].
  - assert (Hrow0 : length row0 = n_col) by (apply Hrows; left).
    destruct IH as [IHlen IHget]; [intros row Hrow; apply Hrows; by right |].
    simpl. split.
    + rewrite length_app, IHlen, Hrow0. reflexivity.
    + intros i_row i_col row x Hrow Hx. destruct i_row as [| i_row]; simpl in *.
      * injection Hrow as ->. rewrite lookup_app_l; [exact Hx |].
        by apply lookup_lt_Some in Hx.
      * rewrite lookup_app_r by lia.
        replace (n_col + i_row * n_col + i_col - length row0)%nat
          with (i_row * n_col + i_col)%nat by lia.
        by apply (IHget i_row i_col row x).
Qed.

Lemma flatten_is_row_major_witness :
  let array := [[1; 2; 3]; [4; 5; 6]]%Q in
  (forall row, row ∈ array -> length row = 3%nat) /\
  length (flatten array) = (length array * 3)%nat /\
  forall (i_row i_col : nat) (row : list Q) (x : Q),
    array !! i_row = Some row -> row !! i_col = Some x ->
    flatten array !! (i_row * 3 + i_col)%nat = Some x.
Proof.
  intros array.
  assert (H : forall row, row ∈ array -> length row = 3%nat).
  { intros row Hrow. apply list_elem_of_In in Hrow. simpl in Hrow.
    destruct Hrow as [<- | [<- | []]]; reflexivity. }
  split; [exact H |]. exact (flatten_is_row_major array 3 H).
Defined.

(** ** arange *)

Lemma arange_loop_values (stop step : Q) (fuel : nat) :
  forall (value : Q) (tmp_array l : list Q),
    arange_loop fuel value stop step tmp_array = Some l ->
    exists tail,
      l = tmp_array ++ tail /\
      (forall (k : nat) (x : Q), tail !! k = Some x ->
         (x == value + inject_Z (Z.of_nat k) * step)%Q /\ (x < stop)%Q) /\
      (stop <= value + inject_Z (Z.of_nat (length tail)) * step)%Q.
Proof.
  induction fuel as [| fuel IH]; intros value tmp_array l H; simpl in H; [discriminate |].
  destruct (Qlt_bool value stop) eqn:Hlt.
  - apply Qlt_bool_iff in Hlt.
    apply IH in H as (tail & -> & Hvalues & Hstop).
    exists (value :: tail). split; [by rewrite <- app_assoc |].
    assert (Hnext : ((value + step)%D == value + step)%Q) by apply Qred_correct.
    split.
    + intros [| k] x Hx; simpl in Hx.
      * injection Hx as <-. split; [| exact Hlt].
        change (inject_Z (Z.of_nat 0)) with 0%Q. lra.
      * apply Hvalues in Hx as [Hx Hx']. split; [| exact Hx'].
        rewrite Hx, Hnext, Nat2Z.inj_succ. unfold Z.succ.
        rewrite inject_Z_plus. change (inject_Z 1) with 1%Q. lra.
    + simpl length. rewrite Nat2Z.inj_succ. unfold Z.succ.
      rewrite inject_Z_plus. change (inject_Z 1) with 1%Q. rewrite Hnext in Hstop. lra.
  - apply Qlt_bool_false_iff in Hlt. injection H as <-.
    exists []. split; [by rewrite app_nil_r |]. split.
    + intros k x Hx. discriminate.
    + change (inject_Z (Z.of_nat (length []))) with 0%Q. lra.
Qed.

(** X6: what [arange] returns holds the values [start], [start + step],
    [start + 2 step], ..., all below [stop], and stops at the first one that
    is not below [stop]. *)
Theorem arange_values (fuel : nat) (start stop step : Q) (l : list Q) :
  arange fuel start stop step = Some l ->
  (forall (k : nat) (x : Q), l !! k = Some x ->
     (x == start + inject_Z (Z.of_nat k) * step)%Q /\ (x < stop)%Q) /\
  (stop <= start + inject_Z (Z.of_nat (length l)) * step)%Q.
Proof.
  unfold arange. intros H.
  apply arange_loop_values in H as (tail & -> & Hvalues & Hstop).
  split; assumption.
Qed.

Lemma arange_values_witness :
  arange 5 0 1 (1 # 4) = Some [0; 1 # 4; 1 # 2; 3 # 4]%Q /\
  (forall (k : nat) (x : Q), [0; 1 # 4; 1 # 2; 3 # 4]%Q !! k = Some x ->
     (x == 0 + inject_Z (Z.of_nat k) * (1 # 4))%Q /\ (x < 1)%Q) /\
  (1 <= 0 + inject_Z (Z.of_nat (length [0; 1 # 4; 1 # 2; 3 # 4]%Q)) * (1 # 4))%Q.
Proof.
  assert (H : arange 5 0 1 (1 # 4) = Some [0; 1 # 4; 1 # 2; 3 # 4]%Q) by reflexivity.
  split; [exact H |]. exact (arange_values 5 0 1 (1 # 4) _ H).
Defined.

(** A step that the addition of doubles swallows leaves the loop where it
    is. *)
Lemma arange_loop_double_stalls (fuel : nat) (value stop step : float)
    (tmp_array : list float) :
  PrimFloat.add value step = value -> PrimFloat.ltb value stop = true ->
  arange_loop_double fuel value stop step tmp_array = None.
Proof.
  intros Hadd Hlt. revert tmp_array.
  induction fuel as [| fuel IH]; intros tmp_array; simpl; [reflexivity |].
  rewrite Hlt, Hadd. apply IH.
Qed.

(** X7: a positive step does not make the loop of [arange] end: when
    [start + step] rounds to [start] and [start < stop], no number of
    iterations suffices, whatever the sign of the step; so for
    [arange(1e16, 1e16 + 4, 1.0)]. *)
Theorem arange_stalls_on_swallowed_step (fuel : nat) (start stop step : float) :
  PrimFloat.add start step = start -> PrimFloat.ltb start stop = true ->
  arange_double fuel start stop step = None.
Proof. intros Hadd Hlt. by apply arange_loop_double_stalls. Qed.

Lemma arange_stalls_on_swallowed_step_witness :
  PrimFloat.ltb 0%float 1%float = true /\
  PrimFloat.add 1e16%float 1%float = 1e16%float /\
  PrimFloat.ltb 1e16%float 10000000000000004%float = true /\
  arange_double 1000 1e16%float 10000000000000004%float 1%float = None.
Proof.
  assert (H : PrimFloat.add 1e16%float 1%float = 1e16%float) by reflexivity.
  assert (H' : PrimFloat.ltb 1e16%float 10000000000000004%float = true) by reflexivity.
  split; [reflexivity |]. split; [exact H |]. split; [exact H' |].
  exact (arange_stalls_on_swallowed_step 1000 1e16%float 10000000000000004%float 1%float
           H H').
Defined.

Lemma arange_loop_runs_on (stop step : Q) (fuel : nat) :
  (step <= 0)%Q ->
  forall (value : Q) (tmp_array : list Q),
    (value < stop)%Q -> arange_loop fuel value stop step tmp_array = None.
Proof.
  intros Hstep. induction fuel as [| fuel IH]; intros value tmp_array Hlt; [reflexivity |].
  simpl. destruct (Qlt_bool value stop) eqn:Hb.
  - apply IH. assert (Hnext : ((value + step)%D == value + step)%Q) by apply Qred_correct.
    rewrite Hnext. lra.
  - apply Qlt_bool_false_iff in Hb. lra.
Qed.

(** X8: with a step that is not positive and [start < stop], the loop of
    [arange] never ends: no number of iterations suffices. *)
Theorem arange_never_returns (fuel : nat) (start stop step : Q) :
  (step <= 0)%Q -> (start < stop)%Q -> arange fuel start stop step = None.
Proof. intros Hstep Hlt. by apply arange_loop_runs_on. Qed.

Lemma arange_never_returns_witness :
  (0 <= 0)%Q /\ (0 < 1)%Q /\ arange 1000 0 1 0 = None.
Proof.
  assert (H : (0 <= 0)%Q) by apply Qle_refl.
  assert (H' : (0 < 1)%Q) by reflexivity.
  split; [exact H |]. split; [exact H' |]. exact (arange_never_returns 1000 0 1 0 H H').
Defined.

(** ** The print functions *)

Lemma numbers_app (out out' : list printed) :
  numbers (out ++ out') = numbers out ++ numbers out'.
Proof.
  induction out as [| p out IH]; [reflexivity |].
  destruct p; simpl; rewrite IH; reflexivity.
Qed.

(** A row prints its entries, and nothing else that is a value. *)
Lemma print_row_numbers (n_row n_col i_row : Z) (element : Z -> result Q)
    (a : list Q) (base : nat) (out : list printed) :
  (forall i_col, 0 <= i_col < n_col -> element i_col = rd a (Z.of_nat base + i_col)) ->
  Z.of_nat base + n_col <= Z.of_nat (length a) ->
  exists out',
    print_row n_row n_col i_row element out = Ok out' /\
    numbers out' = numbers out ++ take (Z.to_nat n_col) (drop base a).
Proof.
  intros Helement Hlen. unfold print_row.
  match goal with
  | |- context [for_up ?n ?i ?body ?s0] =>
      destruct (for_up_returns
        (fun i_col out' =>
           numbers out' = numbers out ++ take (Z.to_nat i_col) (drop base a))
        body n i s0) as (out' & Hout & Hnumbers)
  end.
  - intros i_col out1 Hi Hout1. cbv beta.
    rewrite Helement by lia.
    destruct (rd_returns a (Z.of_nat base + i_col)) as [x Hx]; [lia |].
    rewrite Hx. cbn [bind]. eexists. split; [reflexivity |].
    assert (Hstep : numbers (out1 ++ [Number x])
                    = numbers out ++ take (Z.to_nat (i_col + 1)) (drop base a)).
    { rewrite numbers_app, Hout1, <- app_assoc. f_equal.
      replace (Z.to_nat (i_col + 1)) with (S (Z.to_nat i_col)) by lia.
      apply rd_ok in Hx as [_ Hx].
      rewrite (take_S_r _ _ x); [reflexivity |].
      rewrite lookup_drop. rewrite <- Hx. f_equal. lia. }
    destruct (negb (i_col =? n_col - 1)); [| destruct (negb (i_row =? n_row - 1))];
      rewrite numbers_app, Hstep; simpl; apply app_nil_r.
  - simpl. by rewrite app_nil_r.
  - exists out'. split; [exact Hout |].
    rewrite Hnumbers. do 2 f_equal. lia.
Qed.

(** X9: [print_array] prints every entry of the array once, in order. *)
Theorem print_array_prints_every_entry (array : list Q) :
  exists out, print_array array = Ok out /\ numbers out = array.
Proof.
  unfold print_array. cbv zeta.
  match goal with
  | |- context [for_up ?n ?i ?body ?s0] =>
      destruct (for_up_returns
        (fun i_col out' => numbers out' = take (Z.to_nat i_col) array)
        body n i s0) as (out' & -> & Hnumbers)
  end.
  - intros i_col out1 Hi Hout1. cbv beta.
    destruct (rd_returns array i_col) as [x Hx]; [lia |].
    rewrite Hx. cbn [bind]. eexists. split; [reflexivity |].
    assert (Hstep : numbers (out1 ++ [Number x]) = take (Z.to_nat (i_col + 1)) array).
    { rewrite numbers_app, Hout1.
      replace (Z.to_nat (i_col + 1)) with (S (Z.to_nat i_col)) by lia.
      apply rd_ok in Hx as [_ Hx]. by rewrite (take_S_r _ _ x). }
    destruct (negb _); [| exact Hstep].
    rewrite numbers_app, Hstep. apply app_nil_r.
  - reflexivity.
  - cbn [bind]. eexists. split; [reflexivity |].
    rewrite numbers_app, Hnumbers. simpl. rewrite app_nil_r.
    apply firstn_all2. lia.
Qed.

(** X10: for a positive [n_col], [print_array_2D] of a 1D array prints the
    first [(n_tot / n_col) * n_col] entries, in order: the entries after
    the last whole row are not printed. *)
Theorem print_array_2D_prints_whole_rows (array : list Q) (n_col : Z) :
  0 < n_col ->
  exists out,
    print_array_2D_flat array n_col = Some (Ok out) /\
    numbers out
    = take (Z.to_nat (Z.of_nat (length array) / n_col * n_col)) array.
Proof.
  intros Hcol. unfold print_array_2D_flat.
  destruct (Z.eqb_spec n_col 0) as [| _]; [lia |]. cbv zeta.
  rewrite Z.quot_div_nonneg by lia.
  set (n_tot := Z.of_nat (length array)). set (n_row := n_tot / n_col).
  assert (Hrows : 0 <= n_row /\ n_row * n_col <= n_tot).
  { subst n_row. split; [apply Z.div_pos; lia |].
    rewrite Z.mul_comm. apply Z.mul_div_le. lia. }
  match goal with
  | |- context [for_up ?n ?i ?body ?s0] =>
      destruct (for_up_returns
        (fun i_row out' => numbers out' = take (Z.to_nat (i_row * n_col)) array)
        body n i s0) as (out' & -> & Hnumbers)
  end.
  - intros i_row out1 Hi Hout1. cbv beta zeta.
    destruct (print_row_numbers n_row n_col i_row
                (fun i_col => rd array (i_row * n_col + i_col)) array
                (Z.to_nat (i_row * n_col))
                (out1 ++ [if i_row =? 0 then Bracket else IndentedBracket]))
      as (out2 & -> & Hout2).
    + intros i_col Hc. f_equal. nia.
    + subst n_tot. nia.
    + exists out2. split; [reflexivity |].
      rewrite Hout2, numbers_app, Hout1.
      replace (numbers [if i_row =? 0 then Bracket else IndentedBracket]) with (@nil Q)
        by (destruct (i_row =? 0); reflexivity).
      rewrite app_nil_r, take_take_drop. f_equal. nia.
  - reflexivity.
  - exists out'. split; [reflexivity |]. rewrite Hnumbers. f_equal. lia.
Qed.

Lemma print_array_2D_prints_whole_rows_witness :
  exists out,
    print_array_2D_flat [1; 2; 3; 4; 5]%Q 2 = Some (Ok out) /\
    numbers out = take (Z.to_nat (Z.of_nat (length [1; 2; 3; 4; 5]%Q) / 2 * 2))
                    [1; 2; 3; 4; 5]%Q.
Proof.
  apply (print_array_2D_prints_whole_rows [1; 2; 3; 4; 5]%Q 2). lia.
Defined.

(** X11: an array with fewer entries than a row is printed as the opening
    bracket alone. *)
Theorem print_array_2D_of_short_array (array : list Q) (n_col : Z) :
  Z.of_nat (length array) < n_col ->
  print_array_2D_flat array n_col = Some (Ok [Bracket]).
Proof.
  intros H. unfold print_array_2D_flat.
  destruct (Z.eqb_spec n_col 0) as [| _]; [lia |]. cbv zeta.
  rewrite Z.quot_small by lia. reflexivity.
Qed.

Lemma print_array_2D_of_short_array_witness :
  print_array_2D_flat [1; 2]%Q 3 = Some (Ok [Bracket]).
Proof.
  apply (print_array_2D_of_short_array [1; 2]%Q 3). simpl. lia.
Defined.

(** X12: [print_array_2D] of an array of rows prints the entries in the
    order in which [flatten] puts them. *)
Theorem print_array_2D_prints_in_flatten_order (array : list (list Q)) :
  exists out, print_array_2D array = Ok out /\ numbers out = flatten array.
Proof.
  unfold print_array_2D, flatten. rewrite flatten_from. cbv zeta.
  match goal with
  | |- context [for_up ?n ?i ?body ?s0] =>
      destruct (for_up_returns
        (fun i_row out' => numbers out' = concat (take (Z.to_nat i_row) array))
        body n i s0) as (out' & -> & Hnumbers)
  end.
  - intros i_row out1 Hi Hout1. cbv beta.
    destruct (array !! Z.to_nat i_row) as [row |] eqn:Hrow.
    2:{ apply lookup_ge_None in Hrow. lia. }
    destruct (print_row_numbers (Z.of_nat (length array)) (Z.of_nat (length row)) i_row
                (fun i_col => rd row i_col) row 0
                (out1 ++ [if i_row =? 0 then Bracket else IndentedBracket]))
      as (out2 & -> & Hout2).
    + intros i_col _. reflexivity.
    + simpl. lia.
    + exists out2. split; [reflexivity |].
      rewrite Hout2, numbers_app, Hout1.
      replace (numbers [if i_row =? 0 then Bracket else IndentedBracket]) with (@nil Q)
        by (destruct (i_row =? 0); reflexivity).
      rewrite app_nil_r, Nat2Z.id, drop_0, firstn_all.
      replace (Z.to_nat (i_row + 1)) with (S (Z.to_nat i_row)) by lia.
      rewrite (take_S_r _ _ row Hrow), concat_app. simpl. by rewrite app_nil_r.
  - reflexivity.
  - exists out'. split; [reflexivity |]. rewrite Hnumbers.
    replace (Z.to_nat (0 + Z.of_nat (length array))) with (length array) by lia.
    rewrite firstn_all. reflexivity.
Qed.

(** ** The size of the arrays and of the active window *)

Lemma wr_length (a a' : list Q) (i : Z) (x : Q) :
  wr a i x = Ok a' -> length a' = length a.
Proof. intros H. apply wr_ok in H as (_ & _ & ->). apply length_insert. Qed.

Lemma update_slice_length (a a' : list Q) (start size : Z) (f : Q -> Q) :
  update_slice a start size f = Ok a' -> length a' = length a.
Proof.
  unfold update_slice. destruct (size <? 0); [discriminate |]. intros H.
  apply (for_up_invariant (fun _ b => length b = length a)) in H; [exact H | | reflexivity].
  intros j b b' _ Hb Hbody. ok_step Hbody as x Hx.
  apply wr_length in Hbody. congruence.
Qed.

Lemma copy_paste_up_lengths (m : TrapManager) (hi lo : Z) (w w' : Watermarks) :
  copy_paste_up m hi lo w = Ok w' ->
  length (watermark_volumes w') = length (watermark_volumes w) /\
  length (watermark_fills w') = length (watermark_fills w) /\
  n_active_watermarks w' = n_active_watermarks w /\
  i_first_active_wmk w' = i_first_active_wmk w.
Proof.
  unfold copy_paste_up. intros H.
  apply (for_down_invariant (fun _ w1 =>
    length (watermark_volumes w1) = length (watermark_volumes w) /\
    length (watermark_fills w1) = length (watermark_fills w) /\
    n_active_watermarks w1 = n_active_watermarks w /\
    i_first_active_wmk w1 = i_first_active_wmk w)) in H; [exact H | | auto].
  intros j w1 w2 _ (Hv & Hf & Hn & Hi) Hbody.
  ok_step Hbody as v Hrd. ok_step Hbody as volumes Hwr. ok_step Hbody as fills Hloop.
  injection Hbody as <-. simpl. apply wr_length in Hwr.
  apply (for_up_invariant (fun _ g => length g = length (watermark_fills w1))) in Hloop;
    [| | reflexivity].
  - repeat split; congruence.
  - intros s g1 g2 _ Hg Hstep. ok_step Hstep as f Hf0. apply wr_length in Hstep. congruence.
Qed.

Lemma n_electrons_released_frame (m m' : TrapManager) (r : Q) :
  n_electrons_released m = Ok (r, m') ->
  exists fills,
    m' = set_live m (set_fills (live m) fills) /\
    length fills = length (watermark_fills (live m)).
Proof.
  unfold n_electrons_released. intros H. ok_step H as [n_released fills] Hloop.
  injection H as <- <-. exists fills. split; [reflexivity |].
  apply (for_up_invariant (fun _ s => length (snd s) = length (watermark_fills (live m))))
    in Hloop; [exact Hloop | | reflexivity].
  intros i_wmk [nr1 f1] [nr2 f2] _ Hf1 Hbody. simpl in *.
  ok_step Hbody as [nt f3] Hinner. ok_step Hbody as v Hv. injection Hbody as _ <-.
  apply (for_up_invariant (fun _ s => length (snd s) = length (watermark_fills (live m))))
    in Hinner; [exact Hinner | | exact Hf1].
  intros i_trap [nt1 g1] [nt2 g2] _ Hg1 Hstep. simpl in *.
  ok_step Hstep as f Hrd. ok_step Hstep as p Hp. ok_step Hstep as d Hd.
  ok_step Hstep as g Hwr. injection Hstep as _ <-.
  apply wr_length in Hwr. congruence.
Qed.

(** Use the lengths of the arrays that writes have produced. *)
Ltac lengths :=
  repeat match goal with
         | H : wr _ _ _ = Ok _ |- _ => apply wr_length in H
         | H : update_slice _ _ _ _ = Ok _ |- _ => apply update_slice_length in H
         end;
  simpl in *; congruence.

Lemma make_room_below_top (m : TrapManager) (w w' : Watermarks) :
  make_room_below m w = Ok w' ->
  length (watermark_volumes w') = length (watermark_volumes w) /\
  length (watermark_fills w') = length (watermark_fills w) /\
  n_active_watermarks w' = n_active_watermarks w /\
  window_top w - 1 <= window_top w' <= window_top w.
Proof.
  unfold make_room_below, window_top. intros H.
  destruct (0 <? i_first_active_wmk w).
  - injection H as <-. simpl. repeat split; lia.
  - apply copy_paste_up_lengths in H as (Hv & Hf & Hn & Hi). repeat split; try assumption; lia.
Qed.

Lemma full_capture_top (m : TrapManager) (w w' : Watermarks) (c : Q) (i_above : Z) :
  full_capture m w c i_above = Ok w' ->
  length (watermark_volumes w') = length (watermark_volumes w) /\
  length (watermark_fills w') = length (watermark_fills w) /\
  window_top w <= window_top w' <= window_top w + 1.
Proof.
  unfold full_capture, window_top. intros H.
  destruct (n_active_watermarks w =? 0).
  { ok_step H as volumes Hwr. ok_step H as fills Hsl. injection H as <-.
    simpl. repeat split; try lia; lengths. }
  destruct (i_above =? i_first_active_wmk w).
  { ok_step H as w1 Hroom. apply make_room_below_top in Hroom as (Hv & Hf & Hn & Ht).
    unfold window_top in Ht. simpl in H.
    ok_step H as volumes Hwr. ok_step H as fills Hsl. ok_step H as v Hrd.
    ok_step H as volumes' Hwr'. injection H as <-.
    simpl. repeat split; try lia; lengths. }
  destruct (i_above =? i_first_active_wmk w + n_active_watermarks w) eqn:Habove.
  { apply Z.eqb_eq in Habove. simpl in H.
    ok_step H as volumes Hwr. ok_step H as fills Hsl. injection H as <-.
    simpl. repeat split; try lia; lengths. }
  simpl in H. ok_step H as total Hsum. ok_step H as volumes Hwr. simpl in H.
  ok_step H as volumes' Hwr'. ok_step H as fills Hsl. injection H as <-.
  simpl. repeat split; try lia; lengths.
Qed.

Lemma partial_capture_top (m : TrapManager) (w w' : Watermarks) (c enough : Q)
    (i_above : Z) :
  partial_capture m w c i_above enough = Ok w' ->
  length (watermark_volumes w') = length (watermark_volumes w) /\
  length (watermark_fills w') = length (watermark_fills w) /\
  window_top w <= window_top w' <= window_top w + 1.
Proof.
  unfold partial_capture, window_top. intros H.
  destruct (n_active_watermarks w =? 0).
  { ok_step H as volumes Hwr. ok_step H as fills Hsl. injection H as <-.
    simpl. repeat split; try lia; lengths. }
  destruct (i_above =? i_first_active_wmk w).
  { ok_step H as w1 Hroom. apply make_room_below_top in Hroom as (Hv & Hf & Hn & Ht).
    unfold window_top in Ht. simpl in H.
    ok_step H as volumes Hwr. ok_step H as fills Hsl. ok_step H as v Hrd.
    ok_step H as volumes' Hwr'. injection H as <-.
    simpl. repeat split; try lia; lengths. }
  destruct (i_above =? i_first_active_wmk w + n_active_watermarks w).
  { ok_step H as below Hsum. ok_step H as volumes Hwr. simpl in H.
    ok_step H as fills Hsl. injection H as <-.
    simpl. repeat split; try lia; lengths. }
  ok_step H as w1 Hcopy. apply copy_paste_up_lengths in Hcopy as (Hv & Hf & Hn & Hi).
  ok_step H as below Hsum. ok_step H as volumes Hwr. ok_step H as v_new Hrd.
  ok_step H as v Hrd'. ok_step H as volumes' Hwr'. simpl in H.
  ok_step H as fills Hsl. injection H as <-.
  simpl. repeat split; try lia; lengths.
Qed.

Lemma n_electrons_captured_top (m m' : TrapManager) (n_free n_captured : Q) :
  n_electrons_captured m n_free = Ok (n_captured, m') ->
  length (watermark_volumes (live m')) = length (watermark_volumes (live m)) /\
  length (watermark_fills (live m')) = length (watermark_fills (live m)) /\
  window_top (live m) <= window_top (live m') <= window_top (live m) + 1.
Proof.
  unfold n_electrons_captured. intros Hcap.
  destruct (Qeq_bool _ 0).
  { injection Hcap as _ <-. repeat split; lia. }
  ok_step Hcap as i_above Hidx. ok_step Hcap as nc Hcount.
  destruct (at_least_one _).
  - ok_step Hcap as w' Hfull. injection Hcap as _ <-.
    apply full_capture_top in Hfull as (Hv & Hf & Ht). auto.
  - destruct (divide _ nc) as [enough | | |]; try discriminate.
    ok_step Hcap as w' Hpart. injection Hcap as _ <-.
    apply partial_capture_top in Hpart as (Hv & Hf & Ht). auto.
Qed.

(** X14: a transfer that returns keeps the sizes of both arrays and moves
    the end of the active window up by at most one watermark, never down. *)
Theorem transfer_adds_at_most_one_watermark (m m' : TrapManager) (n_free d : Q) :
  n_electrons_released_and_captured m n_free = Ok (d, m') ->
  length (watermark_volumes (live m')) = length (watermark_volumes (live m)) /\
  length (watermark_fills (live m')) = length (watermark_fills (live m)) /\
  window_top (live m) <= window_top (live m') <= window_top (live m) + 1.
Proof.
  unfold n_electrons_released_and_captured. intros H.
  ok_step H as [n_released m1] Hrel. ok_step H as [n_captured m2] Hcap.
  injection H as _ <-.
  apply n_electrons_released_frame in Hrel as (fills & -> & Hlen).
  apply n_electrons_captured_top in Hcap as (Hv & Hf & Ht).
  unfold window_top in *. simpl in *. repeat split; try lia; congruence.
Qed.

Lemma transfer_adds_at_most_one_watermark_witness :
  let m := set_live (manager_16 4) after_512_252_765 in
  let m' := set_live (manager_16 4) after_512_252_765_890 in
  n_electrons_released_and_captured m 890 = Ok ((-1)%Q, m') /\
  length (watermark_volumes (live m')) = length (watermark_volumes (live m)) /\
  length (watermark_fills (live m')) = length (watermark_fills (live m)) /\
  window_top (live m) <= window_top (live m') <= window_top (live m) + 1.
Proof.
  intros m m'.
  assert (H : n_electrons_released_and_captured m 890 = Ok ((-1)%Q, m'))
    by (vm_compute; reflexivity).
  split; [exact H |]. exact (transfer_adds_at_most_one_watermark m m' 890 (-1) H).
Defined.

Lemma n_transfers_nonneg (os : list operation) : 0 <= n_transfers os.
Proof. induction os as [| [| | | n] os IH]; simpl; lia. Qed.

Lemma apply_operation_windows (nv nf : nat) (k : Z) (o : operation)
    (m m' : TrapManager) (out : list Q) :
  0 <= k -> n_watermarks m = Z.of_nat nv -> n_traps m * n_watermarks m = Z.of_nat nf ->
  apply_operation o m = Ok (out, m') -> windows_below nv nf k m ->
  windows_below nv nf (k + n_transfers [o]) m' /\
  n_watermarks m' = n_watermarks m /\ n_traps m' = n_traps m.
Proof.
  intros Hk Hnv Hnf H [Hl Hs]. destruct o as [| | | n]; simpl in H.
  - injection H as <- <-. rewrite Z.add_0_r. split; [| auto]. split; [| exact Hs].
    unfold window_top, reset_trap_states, set_live, empty_array.
    cbn [live watermark_volumes watermark_fills n_active_watermarks i_first_active_wmk].
    rewrite !length_replicate, Hnf, Hnv. repeat split; lia.
  - injection H as <- <-. simpl. rewrite Z.add_0_r. repeat split; apply Hl.
  - injection H as <- <-. simpl. rewrite Z.add_0_r. repeat split; apply Hs.
  - ok_step H as [d m1] Hrc. injection H as <- <-.
    assert (Htop : length (watermark_volumes (live m1)) = length (watermark_volumes (live m)) /\
                   length (watermark_fills (live m1)) = length (watermark_fills (live m)) /\
                   window_top (live m1) <= window_top (live m) + 1).
    { unfold n_electrons_released_and_captured in Hrc.
      ok_step Hrc as [n_released m2] Hrel. ok_step Hrc as [n_captured m3] Hcap.
      injection Hrc as _ <-.
      apply n_electrons_released_frame in Hrel as (fills & -> & Hlen).
      apply n_electrons_captured_top in Hcap as (Hv & Hf & Ht).
      unfold window_top in *. simpl in *. repeat split; try lia; congruence. }
    destruct Htop as (Hv & Hf & Ht).
    apply n_electrons_released_and_captured_cells in Hrc as (w' & -> & _).
    simpl in *. split; [| auto]. destruct Hl as (Hl1 & Hl2 & Hl3).
    destruct Hs as (Hs1 & Hs2 & Hs3).
    unfold windows_below.
    change (live (set_live m w')) with w'. change (stored (set_live m w')) with (stored m).
    repeat split; try lia; congruence.
Qed.

Lemma run_windows (nv nf : nat) (os : list operation) :
  forall (k : Z) (m m' : TrapManager) (outs : list Q),
    0 <= k -> n_watermarks m = Z.of_nat nv -> n_traps m * n_watermarks m = Z.of_nat nf ->
    run os m = Ok (outs, m') -> windows_below nv nf k m ->
    windows_below nv nf (k + n_transfers os) m'.
Proof.
  induction os as [| o os IH]; intros k m m' outs Hk Hnv Hnf H Hm; simpl in H.
  - injection H as <- <-. simpl. by rewrite Z.add_0_r.
  - ok_step H as [out m1] Hop. ok_step H as [outs' m2] Hrun. injection H as <- <-.
    apply (apply_operation_windows nv nf k) in Hop as (Hm1 & Hn1 & Ht1); try assumption.
    apply (IH (k + n_transfers [o]) m1) in Hrun; try assumption.
    + replace (k + n_transfers (o :: os)) with (k + n_transfers [o] + n_transfers os);
        [exact Hrun |].
      destruct o; simpl; lia.
    + pose proof (n_transfers_nonneg [o]). lia.
    + congruence.
    + rewrite Hn1, Ht1. exact Hnf.
Qed.

(** X15: after any sequence of resets, stores, restores and transfers on an
    initialised manager, both arrays still have the sizes of the
    initialisation ([max_n_transfers + 1] watermarks), and the active window
    starts at or above index 0 and ends at or below the number of transfers
    in the sequence; so [max_n_transfers] transfers keep it inside the
    arrays. *)
Theorem window_ends_below_transfer_count
    (ts : list Trap) (max_transfers : Z) (c : CCD) (p : list Q)
    (os : list operation) (outs : list Q) (m : TrapManager) :
  0 <= max_transfers ->
  run os (initialise ts max_transfers c p) = Ok (outs, m) ->
  Z.of_nat (length (watermark_volumes (live m))) = max_transfers + 1 /\
  Z.of_nat (length (watermark_fills (live m)))
    = Z.of_nat (length ts) * (max_transfers + 1) /\
  0 <= i_first_active_wmk (live m) /\ 0 <= n_active_watermarks (live m) /\
  i_first_active_wmk (live m) + n_active_watermarks (live m) <= n_transfers os.
Proof.
  intros HM H.
  pose proof (run_cells _ _ _ _ H (initialise_cells ts max_transfers c p))
    as [(Hi & Hn & _) _].
  apply (run_windows (Z.to_nat (max_transfers * 1 + 1))
           (Z.to_nat (Z.of_nat (length ts) * (max_transfers * 1 + 1))) os 0) in H.
  - destruct H as [(Ht & Hv & Hf) _]. unfold window_top in Ht.
    rewrite Hv, Hf. repeat split; try assumption; lia.
  - lia.
  - simpl. lia.
  - unfold n_traps. simpl. lia.
  - unfold windows_below, window_top, initialise, set_empty_probabilities,
      initialise_trap_states, store_trap_states, TrapManagerInstantCapture_new,
      TrapManager_new, empty_array, n_traps.
    cbn [live stored traps max_n_transfers n_watermarks_per_transfer
         watermark_volumes watermark_fills n_active_watermarks i_first_active_wmk].
    rewrite !length_replicate. repeat split; lia.
Qed.

Lemma window_ends_below_transfer_count_witness :
  let m := set_live (manager_16 4) after_512_252_765 in
  0 <= 4 /\
  run (map ReleaseAndCapture [512; 252; 765]%Q)
      (initialise [instant_capture_trap 16 (ln 2)] 4 (linear_ccd 1024 0) [1 # 2]%Q)
    = Ok ([-8; 2; -6]%Q, m) /\
  Z.of_nat (length (watermark_volumes (live m))) = 4 + 1 /\
  Z.of_nat (length (watermark_fills (live m))) = Z.of_nat 1 * (4 + 1) /\
  0 <= i_first_active_wmk (live m) /\ 0 <= n_active_watermarks (live m) /\
  i_first_active_wmk (live m) + n_active_watermarks (live m)
    <= n_transfers (map ReleaseAndCapture [512; 252; 765]%Q).
Proof.
  intros m.
  assert (H0 : 0 <= 4) by lia.
  assert (H : run (map ReleaseAndCapture [512; 252; 765]%Q)
                (initialise [instant_capture_trap 16 (ln 2)] 4 (linear_ccd 1024 0)
                   [1 # 2]%Q)
              = Ok ([-8; 2; -6]%Q, m)) by (vm_compute; reflexivity).
  split; [exact H0 |]. split; [exact H |].
  exact (window_ends_below_transfer_count _ _ _ _ _ _ _ H0 H).
Defined.

(** ** Release *)

(** The nested loops of [n_electrons_released] visit the cells
    [i_first_active_wmk * n_traps, ..., window_top * n_traps - 1] of
    [watermark_fills] in order; cell [k] belongs to species [k mod n_traps]. *)
Lemma n_electrons_released_cells_flat (m m' : TrapManager) (r : Q) :
  n_electrons_released m = Ok (r, m') ->
  let lo := i_first_active_wmk (live m) * n_traps m in
  let hi := (i_first_active_wmk (live m) + Z.of_nat (Z.to_nat (n_active_watermarks (live m))))
            * n_traps m in
  exists fills,
    m' = set_live m (set_fills (live m) fills) /\
    (forall k, lo <= k < hi ->
       exists f p, rd (watermark_fills (live m)) k = Ok f /\
                   rd (empty_probabilities_from_release m) (k mod n_traps m) = Ok p /\
                   rd fills k = Ok (f - (f * p)%D)%D) /\
    (forall k, ~ lo <= k < hi -> rd fills k = rd (watermark_fills (live m)) k).
Proof.
  intros H lo hi. unfold n_electrons_released in H.
  ok_step H as [n_released fills] Hloop.
  injection H as <- <-. exists fills. split; [reflexivity |].
  pose proof (n_traps_nonneg m) as Hn.
  set (orig := watermark_fills (live m)) in *.
  set (probs := empty_probabilities_from_release m) in *.
  set (Inv := fun (bound : Z) (cur : list Q) =>
    (forall k, lo <= k < bound ->
       exists f p, rd orig k = Ok f /\ rd probs (k mod n_traps m) = Ok p /\
                   rd cur k = Ok (f - (f * p)%D)%D) /\
    (forall k, ~ lo <= k < bound -> rd cur k = rd orig k)).
  assert (Hfinal : Inv hi fills).
  { refine (for_up_invariant (fun j s => Inv (j * n_traps m) (snd s)) _ _ _ _ _ _ _ Hloop).
    - intros i_wmk [nr1 f1] [nr2 f2] Hi Hinv Hbody. simpl in *.
      ok_step Hbody as [nt f3] Hinner. ok_step Hbody as v Hv. injection Hbody as _ <-.
      replace ((i_wmk + 1) * n_traps m)
        with (i_wmk * n_traps m + Z.of_nat (length (traps m)))
        by (unfold n_traps; lia).
      refine (for_up_invariant (fun s st => Inv (i_wmk * n_traps m + s) (snd st))
                _ _ _ _ _ _ _ Hinner).
      + intros i_trap [nt1 g1] [nt2 g2] Hs [Hdone Hrest] Hstep. simpl in *.
        fold (n_traps m) in Hs.
        ok_step Hstep as f Hrd. ok_step Hstep as p Hp. ok_step Hstep as d Hd.
        ok_step Hstep as g Hwr. injection Hstep as _ <-.
        assert (Hlo : lo <= i_wmk * n_traps m + i_trap) by (subst lo; nia).
        split.
        * intros k Hk. rewrite (rd_wr _ _ _ k _ Hwr).
          destruct (Z.eqb_spec k (i_wmk * n_traps m + i_trap)) as [-> | Hne].
          -- exists f, p. split; [| split; [| reflexivity]].
             ++ rewrite <- Hrest; [exact Hrd | lia].
             ++ rewrite Z.add_comm, Z_mod_plus_full, Z.mod_small by lia. exact Hp.
          -- apply Hdone. lia.
        * intros k Hk. rewrite (rd_wr _ _ _ k _ Hwr).
          destruct (Z.eqb_spec k (i_wmk * n_traps m + i_trap)) as [-> | Hne]; [lia |].
          apply Hrest. lia.
      + simpl. rewrite Z.add_0_r. exact Hinv.
    - simpl. split; [intros k Hk; subst lo; lia | reflexivity]. }
  exact Hfinal.
Qed.

Lemma double_sub_mul_factor (f p : Q) : ((f - (f * p)%D)%D == f * (1 - p))%Q.
Proof. unfold double_sub, double_mul. rewrite !Qred_correct. ring. Qed.

(** X16: release changes nothing but the fills of the active watermarks, and
    multiplies the fill of every active watermark and species by
    [1 - empty_probabilities_from_release[i_trap]]. *)
Theorem release_scales_active_fills (m m' : TrapManager) (r : Q) :
  n_electrons_released m = Ok (r, m') ->
  (exists fills, m' = set_live m (set_fills (live m) fills)) /\
  (forall i s, active (live m) i -> 0 <= s < n_traps m ->
     exists f p f',
       rd (watermark_fills (live m)) (i * n_traps m + s) = Ok f /\
       rd (empty_probabilities_from_release m) s = Ok p /\
       rd (watermark_fills (live m')) (i * n_traps m + s) = Ok f' /\
       (f' == f * (1 - p))%Q) /\
  (forall i s, ~ active (live m) i -> 0 <= s < n_traps m ->
     rd (watermark_fills (live m')) (i * n_traps m + s)
     = rd (watermark_fills (live m)) (i * n_traps m + s)).
Proof.
  intros H. apply n_electrons_released_cells_flat in H.
  destruct H as (fills & -> & Hin & Hout). unfold active. simpl.
  split; [eauto |]. split.
  - intros i s Hi Hs.
    destruct (Hin (i * n_traps m + s)) as (f & p & Hf & Hp & Hf'); [nia |].
    rewrite Z.add_comm, Z_mod_plus_full, Z.mod_small in Hp by lia.
    exists f, p, (f - (f * p)%D)%D.
    split; [exact Hf |]. split; [exact Hp |]. split; [exact Hf' |].
    apply double_sub_mul_factor.
  - intros i s Hi Hs. apply Hout. nia.
Qed.

Lemma release_scales_active_fills_witness :
  let m := set_live (manager_16 4) after_512_252_765 in
  let m' := set_live (manager_16 4) after_512_252_765_released in
  n_electrons_released m = Ok (6%Q, m') /\
  (exists fills, m' = set_live m (set_fills (live m) fills)) /\
  (forall i s, active (live m) i -> 0 <= s < n_traps m ->
     exists f p f',
       rd (watermark_fills (live m)) (i * n_traps m + s) = Ok f /\
       rd (empty_probabilities_from_release m) s = Ok p /\
       rd (watermark_fills (live m')) (i * n_traps m + s) = Ok f' /\
       (f' == f * (1 - p))%Q) /\
  (forall i s, ~ active (live m) i -> 0 <= s < n_traps m ->
     rd (watermark_fills (live m')) (i * n_traps m + s)
     = rd (watermark_fills (live m)) (i * n_traps m + s)).
Proof.
  intros m m'.
  assert (H : n_electrons_released m = Ok (6%Q, m')) by (vm_compute; reflexivity).
  split; [exact H |]. exact (release_scales_active_fills m m' 6 H).
Defined.

(** X17: with release probabilities between 0 and 1, release keeps the
    fills of the active watermarks between 0 and 1. *)
Theorem release_keeps_fills_in_unit_interval (m m' : TrapManager) (r : Q) :
  (forall s p, rd (empty_probabilities_from_release m) s = Ok p -> (0 <= p <= 1)%Q) ->
  fills_in_unit_interval m ->
  n_electrons_released m = Ok (r, m') ->
  fills_in_unit_interval m'.
Proof.
  intros Hp Hm H. apply n_electrons_released_cells_flat in H. cbv zeta in H.
  destruct H as (fills & -> & Hin & _).
  intros i s f' Hi Hs Hf'.
  change (n_traps (set_live m (set_fills (live m) fills))) with (n_traps m) in *.
  change (active (live m) i) in Hi. unfold active in Hi.
  destruct (Hin (i * n_traps m + s)) as (f & p & Hf & Hpp & Hf''); [nia |].
  rewrite Z.add_comm, Z_mod_plus_full, Z.mod_small in Hpp by lia.
  change (rd fills (i * n_traps m + s) = Ok f') in Hf'.
  rewrite Hf' in Hf''. injection Hf'' as ->.
  pose proof (Hm i s f Hi Hs Hf) as Hf01. pose proof (Hp s p Hpp) as Hp01.
  rewrite double_sub_mul_factor. split; nra.
Qed.

Lemma release_keeps_fills_in_unit_interval_witness :
  let m := manager_16_skipped in
  let m' := set_live (manager_16 5)
              (set_fills skipped_and_empty [0; 0; 1 # 2; 0; 0; 0]%Q) in
  (forall s p, rd (empty_probabilities_from_release m) s = Ok p -> (0 <= p <= 1)%Q) /\
  fills_in_unit_interval m /\
  n_electrons_released m = Ok (6%Q, m') /\
  fills_in_unit_interval m'.
Proof.
  intros m m'.
  assert (Hp : forall s p, rd (empty_probabilities_from_release m) s = Ok p ->
                           (0 <= p <= 1)%Q).
  { intros s p H. apply rd_ok in H as [_ H].
    destruct (Z.to_nat s) as [| k]; simpl in H; [| discriminate].
    injection H as <-. split; unfold Qle; simpl; lia. }
  assert (Hm : fills_in_unit_interval m) by apply manager_16_skipped_valid.
  assert (H : n_electrons_released m = Ok (6%Q, m')) by (vm_compute; reflexivity).
  split; [exact Hp |]. split; [exact Hm |]. split; [exact H |].
  exact (release_keeps_fills_in_unit_interval m m' 6 Hp Hm H).
Defined.

(** X18: release returns when the active window lies inside the arrays and
    there is a release probability for every species. *)
Theorem release_returns (m : TrapManager) :
  0 <= i_first_active_wmk (live m) ->
  window_top (live m) <= Z.of_nat (length (watermark_volumes (live m))) ->
  window_top (live m) * n_traps m <= Z.of_nat (length (watermark_fills (live m))) ->
  n_traps m <= Z.of_nat (length (empty_probabilities_from_release m)) ->
  exists n_released m', n_electrons_released m = Ok (n_released, m').
Proof.
  unfold window_top. intros Hi0 Hv Hf Hp. unfold n_electrons_released.
  pose proof (n_traps_nonneg m) as Hn. cbv zeta.
  match goal with
  | |- context [for_up ?n ?i ?body ?s0] =>
      destruct (for_up_returns
        (fun _ (st : Q * list Q) => length (snd st) = length (watermark_fills (live m)))
        body n i s0) as ([n_released fills] & -> & _)
  end.
  - intros i_wmk [nr f1] Hi Hlen. simpl in Hlen. cbv beta iota.
    match goal with
    | |- context [for_up ?n ?i ?body ?s0] =>
        destruct (for_up_returns
          (fun _ (st : Q * list Q) => length (snd st) = length (watermark_fills (live m)))
          body n i s0) as ([nt f2] & -> & Hlen2)
    end.
    + intros i_trap [nt g1] Hs Hg. simpl in Hg. fold (n_traps m) in Hs.
      assert (Hk : 0 <= i_wmk * n_traps m + i_trap < Z.of_nat (length g1)).
      { rewrite Hg. nia. }
      destruct (rd_returns g1 _ Hk) as [f Hrd].
      destruct (rd_returns (empty_probabilities_from_release m) i_trap) as [p Hrp]; [lia |].
      destruct (density_at_returns (traps m) i_trap) as [d Hd]; [unfold n_traps in Hs; lia |].
      destruct (wr_returns g1 _ (f - (f * p)%D)%D Hk) as (g2 & Hwr & Hg2).
      cbv beta iota. rewrite Hrd. cbn [bind]. rewrite Hrp. cbn [bind].
      rewrite Hd. cbn [bind]. rewrite Hwr. cbn [bind].
      eexists. split; [reflexivity |]. simpl. congruence.
    + exact Hlen.
    + simpl in Hlen2. cbn [bind].
      destruct (rd_returns (watermark_volumes (live m)) i_wmk) as [v ->]; [lia |].
      cbn [bind]. eexists. split; [reflexivity |]. exact Hlen2.
  - reflexivity.
  - cbn [bind]. eauto.
Qed.

Lemma release_returns_witness :
  let m := set_live (manager_16 4) after_512_252_765 in
  exists n_released m', n_electrons_released m = Ok (n_released, m').
Proof.
  intros m. apply (release_returns m); vm_compute; congruence.
Defined.

(** ** Conservation of electrons *)

Lemma sum_from_ext (n : nat) (i : Z) (F G : Z -> Q) :
  (forall j, i <= j < i + Z.of_nat n -> (F j == G j)%Q) ->
  (sum_from n i F == sum_from n i G)%Q.
Proof.
  revert i. induction n as [| n IH]; intros i H; cbn [sum_from]; [reflexivity |].
  rewrite (H i) by lia. rewrite (IH (i + 1)); [reflexivity |].
  intros j Hj. apply H. lia.
Qed.

Lemma sum_from_snoc (n : nat) (i : Z) (F : Z -> Q) :
  (sum_from (S n) i F == sum_from n i F + F (i + Z.of_nat n)%Z)%Q.
Proof.
  revert i. induction n as [| n IH]; intros i.
  - cbn [sum_from]. replace (i + Z.of_nat 0) with i by lia. ring.
  - change (sum_from (S (S n)) i F) with (F i + sum_from (S n) (i + 1) F)%Q.
    rewrite IH. cbn [sum_from].
    replace (i + 1 + Z.of_nat n) with (i + Z.of_nat (S n)) by lia. ring.
Qed.

Lemma sum_from_add (n : nat) (i : Z) (F G : Z -> Q) :
  (sum_from n i (fun j => F j + G j) == sum_from n i F + sum_from n i G)%Q.
Proof.
  revert i. induction n as [| n IH]; intros i; cbn [sum_from]; [ring |]. rewrite IH. ring.
Qed.

Lemma sum_from_mul_r (n : nat) (i : Z) (F : Z -> Q) (c : Q) :
  (sum_from n i F * c == sum_from n i (fun j => F j * c))%Q.
Proof.
  revert i. induction n as [| n IH]; intros i; cbn [sum_from]; [ring |]. rewrite <- IH. ring.
Qed.

Lemma sum_from_zero (n : nat) (i : Z) : (sum_from n i (fun _ => 0) == 0)%Q.
Proof.
  revert i. induction n as [| n IH]; intros i; cbn [sum_from]; [reflexivity |].
  rewrite IH. ring.
Qed.

Lemma sum_from_shift (n : nat) (i : Z) (F : Z -> Q) :
  (sum_from n i F == sum_from n 0 (fun k => F (i + k)%Z))%Q.
Proof.
  revert i F. induction n as [| n IH]; intros i F; cbn [sum_from]; [reflexivity |].
  replace (i + 0) with i by lia.
  rewrite (IH (i + 1) F), (IH (0 + 1) (fun k => F (i + k))).
  apply Qplus_comp; [reflexivity |]. apply sum_from_ext. intros j _. cbn beta.
  replace (i + 1 + j) with (i + (0 + 1 + j)) by lia. reflexivity.
Qed.

Lemma sum_from_swap (n n' : nat) (i i' : Z) (F : Z -> Z -> Q) :
  (sum_from n i (fun a => sum_from n' i' (fun b => F a b))
   == sum_from n' i' (fun b => sum_from n i (fun a => F a b)))%Q.
Proof.
  revert i. induction n as [| n IH]; intros i; cbn [sum_from].
  - symmetry. apply sum_from_zero.
  - rewrite IH. symmetry. apply sum_from_add.
Qed.

Lemma cell_rd (a : list Q) (i : Z) (x : Q) : rd a i = Ok x -> cell a i = x.
Proof. unfold cell. by intros ->. Qed.

(** A loop that adds one term per round computes the sum of the terms. *)
Lemma for_up_sum (n : nat) (i : Z) (body : Z -> Q -> result Q) (F : Z -> Q)
    (acc total : Q) :
  (forall j a a', i <= j < i + Z.of_nat n -> body j a = Ok a' -> (a' == a + F j)%Q) ->
  for_up n i body acc = Ok total ->
  (total == acc + sum_from n i F)%Q.
Proof.
  revert i acc. induction n as [| n IH]; intros i acc Hbody H; simpl in H.
  - injection H as <-. cbn [sum_from]. ring.
  - ok_step H as acc' Hstep.
    apply IH in H; [| intros j a a' Hj; apply Hbody; lia].
    rewrite H, (Hbody i acc acc') by (lia || assumption).
    cbn [sum_from]. ring.
Qed.

Lemma n_trapped_electrons_from_watermarks_sum (m : TrapManager)
    (wmk_volumes wmk_fills : list Q) (t : Q) :
  n_trapped_electrons_from_watermarks m wmk_volumes wmk_fills = Ok t ->
  (t == trapped_sum m wmk_volumes wmk_fills)%Q.
Proof.
  unfold n_trapped_electrons_from_watermarks, trapped_sum. cbv zeta.
  destruct (Z.eqb_spec (n_active_watermarks (live m)) 0) as [-> | _].
  - intros [= <-]. cbn [Z.to_nat sum_from]. symmetry.
    rewrite (sum_from_ext _ _ _ (fun _ => 0%Q)); [apply sum_from_zero |].
    intros j _. cbv beta. change (Z.to_nat 0) with 0%nat. cbn [sum_from]. ring.
  - intros H.
    apply (for_up_sum _ _ _ (fun i_trap =>
      sum_from (Z.to_nat (n_active_watermarks (live m))) 0 (fun k =>
        cell wmk_fills (i_first_active_wmk (live m) * n_traps m + i_trap + k * n_traps m)
        * cell wmk_volumes (i_first_active_wmk (live m) + k))
      * cell (map density (traps m)) i_trap)%Q) in H; [rewrite H; ring |].
    intros i_trap a a' _ Hbody. cbv beta in Hbody.
    ok_step Hbody as total Hinner. ok_step Hbody as d Hd. injection Hbody as <-.
    unfold density_at in Hd. rewrite (cell_rd _ _ _ Hd).
    apply (for_up_sum _ _ _ (fun k =>
        cell wmk_fills (i_first_active_wmk (live m) * n_traps m + i_trap + k * n_traps m)
        * cell wmk_volumes (i_first_active_wmk (live m) + k))%Q) in Hinner.
    + unfold double_add. rewrite Qred_correct, Hinner. ring.
    + intros k b b' _ Hstep. cbv beta in Hstep.
      ok_step Hstep as f Hf. ok_step Hstep as v Hv. injection Hstep as <-.
      unfold double_add. rewrite Qred_correct, (cell_rd _ _ _ Hf), (cell_rd _ _ _ Hv).
      reflexivity.
Qed.

Lemma n_electrons_released_sum (m m' : TrapManager) (r : Q) :
  n_electrons_released m = Ok (r, m') -> (r == released_sum m)%Q.
Proof.
  intros H. unfold n_electrons_released in H. cbv zeta in H.
  ok_step H as [n_released fills] Hloop. injection H as <- _.
  pose proof (n_traps_nonneg m) as Hn.
  set (w := live m) in *. set (orig := watermark_fills w) in *.
  set (inner := fun i_wmk : Z => sum_from (length (traps m)) 0 (fun i_trap =>
      cell orig (i_wmk * n_traps m + i_trap)
      * cell (empty_probabilities_from_release m) i_trap
      * cell (map density (traps m)) i_trap)%Q).
  set (term := fun i_wmk : Z => (inner i_wmk * cell (watermark_volumes w) i_wmk)%Q).
  change (n_released == sum_from (Z.to_nat (n_active_watermarks w)) (i_first_active_wmk w) term)%Q.
  set (i0 := i_first_active_wmk w) in *.
  set (Inv := fun (j : Z) (st : Q * list Q) =>
    (forall k, j * n_traps m <= k -> rd (snd st) k = rd orig k) /\
    (fst st == sum_from (Z.to_nat (j - i0)) i0 term)%Q).
  assert (Hfinal : Inv (i0 + Z.of_nat (Z.to_nat (n_active_watermarks w))) (n_released, fills)).
  { refine (for_up_invariant Inv _ _ _ _ _ _ _ Hloop).
    - intros i_wmk [nr1 f1] [nr2 f2] Hi [Hrest Hacc] Hbody. simpl in Hrest, Hacc.
      cbv beta iota in Hbody.
      ok_step Hbody as [nt f3] Hinner. ok_step Hbody as v Hv. injection Hbody as <- <-.
      set (InvIn := fun (s : Z) (st : Q * list Q) =>
        (forall k, i_wmk * n_traps m + s <= k -> rd (snd st) k = rd orig k) /\
        (fst st == sum_from (Z.to_nat s) 0 (fun i_trap =>
            cell orig (i_wmk * n_traps m + i_trap)
            * cell (empty_probabilities_from_release m) i_trap
            * cell (map density (traps m)) i_trap))%Q).
      assert (Hin : InvIn (0 + Z.of_nat (length (traps m))) (nt, f3)).
      { refine (for_up_invariant InvIn _ _ _ _ _ _ _ Hinner).
        - intros i_trap [nt1 g1] [nt2 g2] Hs [Hrest1 Hacc1] Hstep. simpl in Hrest1, Hacc1.
          cbv beta iota in Hstep.
          ok_step Hstep as f Hrd. ok_step Hstep as p Hp. ok_step Hstep as d Hd.
          ok_step Hstep as g Hwr. injection Hstep as <- <-. split; simpl.
          + intros k Hk. rewrite (rd_wr _ _ _ k _ Hwr).
            destruct (Z.eqb_spec k (i_wmk * n_traps m + i_trap)) as [-> | Hne]; [lia |].
            apply Hrest1. lia.
          + replace (Z.to_nat (i_trap + 1)) with (S (Z.to_nat i_trap)) by lia.
            rewrite sum_from_snoc, <- Hacc1. rewrite Z.add_0_l, Z2Nat.id by lia.
            rewrite Hrest1 in Hrd by lia.
            unfold density_at in Hd.
            rewrite (cell_rd _ _ _ Hrd), (cell_rd _ _ _ Hp), (cell_rd _ _ _ Hd).
            unfold double_add, double_mul. repeat rewrite Qred_correct. reflexivity.
        - split; simpl.
          + intros k Hk. apply Hrest. lia.
          + reflexivity. }
      destruct Hin as [Hrest3 Hacc3]. simpl in Hrest3, Hacc3. split; simpl.
      + intros k Hk. apply Hrest3. unfold n_traps in *. lia.
      + replace (Z.to_nat (i_wmk + 1 - i0)) with (S (Z.to_nat (i_wmk - i0))) by lia.
        rewrite sum_from_snoc, <- Hacc. replace (i0 + Z.of_nat (Z.to_nat (i_wmk - i0)))
          with i_wmk by lia.
        unfold term, inner. rewrite (cell_rd _ _ _ Hv).
        rewrite Z.add_0_l, Nat2Z.id in Hacc3. rewrite <- Hacc3.
        unfold double_add. rewrite Qred_correct. reflexivity.
    - split; simpl; [reflexivity |].
      replace (Z.to_nat (i0 - i0)) with 0%nat by lia. reflexivity. }
  destruct Hfinal as [_ Hacc]. simpl in Hacc.
  replace (Z.to_nat (i0 + Z.of_nat (Z.to_nat (n_active_watermarks w)) - i0))
    with (Z.to_nat (n_active_watermarks w)) in Hacc by lia.
  exact Hacc.
Qed.

(** The released sum with the species in the outer sum, as
    [n_trapped_electrons_from_watermarks] has them. *)
Lemma released_sum_by_species (m : TrapManager) :
  (released_sum m
   == sum_from (length (traps m)) 0 (fun i_trap =>
        sum_from (Z.to_nat (n_active_watermarks (live m))) 0 (fun k =>
          cell (watermark_fills (live m))
            (i_first_active_wmk (live m) * n_traps m + i_trap + k * n_traps m)
          * cell (empty_probabilities_from_release m) i_trap
          * cell (watermark_volumes (live m)) (i_first_active_wmk (live m) + k))
        * cell (map density (traps m)) i_trap))%Q.
Proof.
  unfold released_sum. cbv zeta.
  set (N := n_traps m). set (w := live m).
  set (i0 := i_first_active_wmk w). set (na := Z.to_nat (n_active_watermarks w)).
  set (F := watermark_fills w). set (V := watermark_volumes w).
  set (P := empty_probabilities_from_release m). set (D := map density (traps m)).
  rewrite sum_from_shift.
  rewrite (sum_from_ext _ _ _ (fun k => sum_from (length (traps m)) 0 (fun i_trap =>
    cell F (i0 * N + i_trap + k * N) * cell P i_trap * cell V (i0 + k)
    * cell D i_trap))%Q).
  - rewrite sum_from_swap. apply sum_from_ext. intros s _. cbv beta.
    rewrite sum_from_mul_r. reflexivity.
  - intros k _. cbv beta. rewrite sum_from_mul_r. apply sum_from_ext. intros s _.
    cbv beta. replace ((i0 + k) * N + s) with (i0 * N + s + k * N) by ring. ring.
Qed.

(** X19: release conserves the electrons: those still trapped after it are
    those trapped before less the released ones. *)
Theorem release_conserves_electrons (m m' : TrapManager) (n_released before after : Q) :
  n_electrons_released m = Ok (n_released, m') ->
  n_trapped_electrons m = Ok before ->
  n_trapped_electrons m' = Ok after ->
  (after == before - n_released)%Q.
Proof.
  intros Hrel Hbefore Hafter.
  pose proof (n_electrons_released_sum _ _ _ Hrel) as Hr.
  apply n_electrons_released_cells_flat in Hrel. cbv zeta in Hrel.
  destruct Hrel as (fills & -> & Hin & _).
  apply n_trapped_electrons_from_watermarks_sum in Hbefore, Hafter.
  rewrite Hr, Hbefore, Hafter, released_sum_by_species.
  clear Hr Hbefore Hafter before after n_released.
  unfold trapped_sum. cbv zeta. cbn [live set_live set_fills traps
    watermark_volumes watermark_fills n_active_watermarks i_first_active_wmk].
  change (n_traps (set_live m (set_fills (live m) fills))) with (n_traps m).
  pose proof (n_traps_nonneg m) as Hn.
  assert (Hgoal : forall a b c : Q, (a + c == b -> a == b - c)%Q) by (intros; lra).
  apply Hgoal. rewrite <- sum_from_add. apply sum_from_ext. intros s Hs. cbv beta.
  rewrite <- Qmult_plus_distr_l. apply Qmult_comp; [| reflexivity].
  rewrite <- sum_from_add. apply sum_from_ext. intros k Hk. cbv beta.
  destruct (Hin (i_first_active_wmk (live m) * n_traps m + s + k * n_traps m))
    as (f & p & Hf & Hp & Hf').
  { unfold n_traps in *. nia. }
  replace ((i_first_active_wmk (live m) * n_traps m + s + k * n_traps m) mod n_traps m)
    with s in Hp.
  2:{ replace (i_first_active_wmk (live m) * n_traps m + s + k * n_traps m)
        with (s + (i_first_active_wmk (live m) + k) * n_traps m) by ring.
      rewrite Z_mod_plus_full, Z.mod_small; [reflexivity |]. unfold n_traps. lia. }
  rewrite (cell_rd _ _ _ Hf), (cell_rd _ _ _ Hp), (cell_rd _ _ _ Hf').
  rewrite double_sub_mul_factor. ring.
Qed.

Lemma release_conserves_electrons_witness :
  let m := set_live (manager_16 4) after_512_252_765 in
  let m' := set_live (manager_16 4) after_512_252_765_released in
  n_electrons_released m = Ok (6%Q, m') /\
  n_trapped_electrons m = Ok 12%Q /\
  n_trapped_electrons m' = Ok 6%Q /\
  (6 == 12 - 6)%Q.
Proof.
  intros m m'.
  assert (H : n_electrons_released m = Ok (6%Q, m')) by (vm_compute; reflexivity).
  assert (Hb : n_trapped_electrons m = Ok 12%Q) by (vm_compute; reflexivity).
  assert (Ha : n_trapped_electrons m' = Ok 6%Q) by (vm_compute; reflexivity).
  split; [exact H |]. split; [exact Hb |]. split; [exact Ha |].
  exact (release_conserves_electrons m m' 6 12 6 H Hb Ha).
Defined.

Lemma sum_from_le (n : nat) (i : Z) (F G : Z -> Q) :
  (forall j, i <= j < i + Z.of_nat n -> (F j <= G j)%Q) ->
  (sum_from n i F <= sum_from n i G)%Q.
Proof.
  revert i. induction n as [| n IH]; intros i H; cbn [sum_from]; [apply Qle_refl |].
  apply Qplus_le_compat; [apply H; lia |]. apply IH. intros j Hj. apply H. lia.
Qed.

Lemma sum_from_nonneg (n : nat) (i : Z) (F : Z -> Q) :
  (forall j, i <= j < i + Z.of_nat n -> (0 <= F j)%Q) -> (0 <= sum_from n i F)%Q.
Proof.
  intros H. rewrite <- (sum_from_zero n i). by apply sum_from_le.
Qed.

Lemma cell_between (a : list Q) (i : Z) (lo hi : Q) :
  (lo <= 0)%Q -> (0 <= hi)%Q ->
  (forall x, rd a i = Ok x -> (lo <= x <= hi)%Q) -> (lo <= cell a i <= hi)%Q.
Proof.
  intros Hlo Hhi H. unfold cell. destruct (rd a i) as [x | |]; [by apply H | |]; lra.
Qed.

Lemma lookup_map_density (ts : list Trap) (i : nat) (d : Q) :
  map density ts !! i = Some d -> exists t, t ∈ ts /\ d = density t.
Proof.
  revert i. induction ts as [| t ts IH]; intros i H; [discriminate |].
  destruct i as [| i]; simpl in H.
  - injection H as <-. exists t. split; [left | reflexivity].
  - destruct (IH i H) as (t' & Ht' & ->). exists t'. split; [by right | reflexivity].
Qed.

Lemma cell_density_nonneg (ts : list Trap) (s : Z) :
  (forall t, t ∈ ts -> (0 <= density t)%Q) -> (0 <= cell (map density ts) s)%Q.
Proof.
  intros H. unfold cell. destruct (rd (map density ts) s) as [d | |] eqn:E; try lra.
  apply rd_ok in E as [_ E]. apply lookup_map_density in E as (t & Ht & ->).
  by apply H.
Qed.

(** X20: on a manager whose fills, volumes and release probabilities lie
    between 0 and 1 and whose densities are not negative, release takes
    between none and all of the trapped electrons. *)
Theorem released_between_none_and_all (m m' : TrapManager) (n_released before : Q) :
  fills_in_unit_interval m -> volumes_in_unit_interval (live m) ->
  (forall s p, rd (empty_probabilities_from_release m) s = Ok p -> (0 <= p <= 1)%Q) ->
  (forall t, t ∈ traps m -> (0 <= density t)%Q) ->
  n_electrons_released m = Ok (n_released, m') ->
  n_trapped_electrons m = Ok before ->
  (0 <= n_released <= before)%Q.
Proof.
  intros Hfills Hvolumes Hprobs Hdens Hrel Hbefore.
  apply n_electrons_released_sum in Hrel.
  apply n_trapped_electrons_from_watermarks_sum in Hbefore.
  rewrite Hrel, Hbefore, released_sum_by_species. unfold trapped_sum. cbv zeta.
  pose proof (n_traps_nonneg m) as Hn.
  assert (Hcells : forall s k,
    0 <= s < 0 + Z.of_nat (length (traps m)) ->
    0 <= k < 0 + Z.of_nat (Z.to_nat (n_active_watermarks (live m))) ->
    (0 <= cell (watermark_fills (live m))
            (i_first_active_wmk (live m) * n_traps m + s + k * n_traps m) <= 1)%Q /\
    (0 <= cell (watermark_volumes (live m)) (i_first_active_wmk (live m) + k) <= 1)%Q /\
    (0 <= cell (empty_probabilities_from_release m) s <= 1)%Q /\
    (0 <= cell (map density (traps m)) s)%Q).
  { intros s k Hs Hk.
    assert (Hactive : active (live m) (i_first_active_wmk (live m) + k))
      by (unfold active; lia).
    split; [| split; [| split]].
    - apply cell_between; try lra. intros f Hf.
      apply (Hfills (i_first_active_wmk (live m) + k) s); [exact Hactive | |].
      + unfold n_traps. lia.
      + rewrite <- Hf. f_equal. ring.
    - apply cell_between; try lra. intros v Hv. by apply (Hvolumes _ _ Hactive).
    - apply cell_between; try lra. apply Hprobs.
    - by apply cell_density_nonneg. }
  split.
  - apply sum_from_nonneg. intros s Hs. cbv beta.
    apply Qmult_le_0_compat; [| by apply cell_density_nonneg].
    apply sum_from_nonneg. intros k Hk. cbv beta.
    destruct (Hcells s k Hs Hk) as (Hf & Hv & Hp & _).
    apply Qmult_le_0_compat; [apply Qmult_le_0_compat |]; lra.
  - apply sum_from_le. intros s Hs. cbv beta.
    apply Qmult_le_compat_r; [| by apply cell_density_nonneg].
    apply sum_from_le. intros k Hk. cbv beta.
    destruct (Hcells s k Hs Hk) as (Hf & Hv & Hp & _).
    set (f := cell (watermark_fills (live m)) _) in *.
    set (v := cell (watermark_volumes (live m)) _) in *.
    set (p := cell (empty_probabilities_from_release m) s) in *.
    assert (Hfv : (0 <= f * v)%Q) by (apply Qmult_le_0_compat; lra).
    nra.
Qed.

Lemma released_between_none_and_all_witness :
  let m := manager_16_skipped in
  let m' := set_live (manager_16 5)
              (set_fills skipped_and_empty [0; 0; 1 # 2; 0; 0; 0]%Q) in
  n_electrons_released m = Ok (6%Q, m') /\
  n_trapped_electrons m = Ok 12%Q /\
  (0 <= 6 <= 12)%Q.
Proof.
  intros m m'.
  assert (Hp : forall s p, rd (empty_probabilities_from_release m) s = Ok p ->
                           (0 <= p <= 1)%Q).
  { intros s p H. apply rd_ok in H as [_ H].
    destruct (Z.to_nat s) as [| k]; simpl in H; [| discriminate].
    injection H as <-. split; unfold Qle; simpl; lia. }
  assert (Hd : forall t, t ∈ traps m -> (0 <= density t)%Q).
  { intros t Ht. apply list_elem_of_In in Ht. simpl in Ht.
    destruct Ht as [<- | []]. unfold Qle; simpl; lia. }
  assert (H : n_electrons_released m = Ok (6%Q, m')) by (vm_compute; reflexivity).
  assert (Hb : n_trapped_electrons m = Ok 12%Q) by (vm_compute; reflexivity).
  split; [exact H |]. split; [exact Hb |].
  apply (released_between_none_and_all m m' 6 12); try assumption;
    apply manager_16_skipped_valid.
Defined.

(** ** What the count of the trapped electrons reads *)

Lemma for_up_ext {S : Type} (body body' : Z -> S -> result S) (n : nat) (i : Z) (s : S) :
  (forall j s1, i <= j < i + Z.of_nat n -> body j s1 = body' j s1) ->
  for_up n i body s = for_up n i body' s.
Proof.
  revert i s. induction n as [| n IH]; intros i s H; simpl; [reflexivity |].
  rewrite (H i s) by lia. destruct (body' i s) as [s1 | |]; simpl; try reflexivity.
  apply IH. intros j s2 Hj. apply H. lia.
Qed.

(** X26: [n_trapped_electrons_from_watermarks] reads the cells of the active
    watermarks only: arrays that agree there give the same result. *)
Theorem n_trapped_electrons_reads_active_cells
    (m : TrapManager) (volumes fills volumes' fills' : list Q) :
  (forall i, active (live m) i -> rd volumes i = rd volumes' i) ->
  (forall i s, active (live m) i -> 0 <= s < n_traps m ->
     rd fills (i * n_traps m + s) = rd fills' (i * n_traps m + s)) ->
  n_trapped_electrons_from_watermarks m volumes fills
  = n_trapped_electrons_from_watermarks m volumes' fills'.
Proof.
  intros Hv Hf. unfold n_trapped_electrons_from_watermarks. cbv zeta.
  destruct (n_active_watermarks (live m) =? 0); [reflexivity |].
  apply for_up_ext. intros i_trap acc Hs. fold (n_traps m) in Hs. f_equal.
  apply for_up_ext. intros k total Hk.
  assert (Hactive : active (live m) (i_first_active_wmk (live m) + k))
    by (unfold active; lia).
  replace (i_first_active_wmk (live m) * n_traps m + i_trap + k * n_traps m)
    with ((i_first_active_wmk (live m) + k) * n_traps m + i_trap) by ring.
  rewrite (Hf _ i_trap Hactive), (Hv _ Hactive) by lia. reflexivity.
Qed.

Lemma n_trapped_electrons_reads_active_cells_witness :
  let m := set_live (manager_16 4) after_512_252_765 in
  n_trapped_electrons_from_watermarks m [1 # 4; 3 # 4; 0; 0; 0]%Q [1 # 2; 1; 0; 0; 0]%Q
  = n_trapped_electrons_from_watermarks m [9; 3 # 4]%Q [7; 1; 5]%Q.
Proof.
  intros m. apply (n_trapped_electrons_reads_active_cells m).
  - intros i Hi. unfold active in Hi. simpl in Hi. replace i with 1 by lia. reflexivity.
  - intros i s Hi Hs. unfold active in Hi. simpl in Hi. change (n_traps m) with 1 in *.
    replace i with 1 by lia. replace s with 0 by lia. reflexivity.
Defined.

(** ** Capture *)

Lemma Qle_bool_false_iff (a b : Q) : Qle_bool a b = false <-> (b < a)%Q.
Proof.
  rewrite <- not_true_iff_false, Qle_bool_iff.
  split; [apply Qnot_le_lt | apply Qlt_not_le].
Qed.

(** X21: a cloud of volume zero captures nothing and leaves the manager as
    it is; otherwise, when the watermarks up to the cloud can capture a
    non-negative number of electrons, the captured number is the smaller of
    that number and the free electrons. *)
Theorem captured_is_least_of_free_and_capturable
    (m m' : TrapManager) (n_free n_captured : Q) :
  n_electrons_captured m n_free = Ok (n_captured, m') ->
  let cloud := cloud_fractional_volume_from_electrons (ccd m) n_free in
  if Qeq_bool cloud 0 then n_captured = 0%Q /\ m' = m
  else
    exists i_above capturable,
      watermark_index_above_cloud_from_volumes (live m) (watermark_volumes (live m)) cloud
      = Ok i_above /\
      n_capturable m (live m) cloud i_above = Ok capturable /\
      ((0 <= capturable)%Q ->
       ((capturable <= n_free)%Q -> (n_captured == capturable)%Q) /\
       ((n_free < capturable)%Q -> (n_captured == n_free)%Q)).
Proof.
  intros H cloud. unfold n_electrons_captured in H. fold cloud in H.
  destruct (Qeq_bool cloud 0); [by injection H as <- <- |].
  ok_step H as i_above Hindex. ok_step H as capturable Hcap.
  exists i_above, capturable. split; [exact Hindex |]. split; [exact Hcap |].
  intros Hpos. unfold divide in H.
  destruct (Qeq_bool capturable 0) eqn:Hzero.
  - apply Qeq_bool_iff in Hzero.
    destruct (Qlt_bool 0 n_free) eqn:Hfree.
    + cbn [at_least_one] in H. ok_step H as w Hw. injection H as <- _.
      apply Qlt_bool_iff in Hfree. split; [reflexivity | intros; lra].
    + destruct (Qlt_bool n_free 0); discriminate.
  - assert (Hne : ~ (capturable == 0)%Q).
    { intros E. apply Qeq_bool_iff in E. congruence. }
    assert (Hdiv : ((n_free / capturable)%D == n_free / capturable)%Q)
      by apply Qred_correct.
    assert (Hlt : (0 < capturable)%Q) by lra.
    cbn [at_least_one] in H.
    destruct (Qle_bool 1 (n_free / capturable)%D) eqn:Hone.
    + ok_step H as w Hw. injection H as <- _.
      apply Qle_bool_iff in Hone. rewrite Hdiv in Hone.
      split; [reflexivity |]. intros Hless. exfalso.
      apply (Qmult_le_r _ _ capturable Hlt) in Hone.
      assert (E : (n_free / capturable * capturable == n_free)%Q) by (field; exact Hne).
      rewrite E in Hone. lra.
    + ok_step H as w Hw. injection H as <- _.
      apply Qle_bool_false_iff in Hone. rewrite Hdiv in Hone.
      assert (E : ((capturable * (n_free / capturable)%D)%D == n_free)%Q).
      { unfold double_mul. rewrite Qred_correct, Hdiv. field. exact Hne. }
      split; [| intros _; exact E].
      intros Hle. exfalso.
      apply (Qmult_lt_r _ _ capturable Hlt) in Hone.
      assert (E' : (n_free / capturable * capturable == n_free)%Q) by (field; exact Hne).
      rewrite E' in Hone. lra.
Qed.

Lemma captured_is_least_of_free_and_capturable_witness :
  let m := manager_16 4 in
  let m' := set_live (manager_16 4) after_512 in
  n_electrons_captured m 512 = Ok (8%Q, m') /\
  (let cloud := cloud_fractional_volume_from_electrons (ccd m) 512 in
   if Qeq_bool cloud 0 then 8%Q = 0%Q /\ m' = m
   else
     exists i_above capturable,
       watermark_index_above_cloud_from_volumes (live m) (watermark_volumes (live m)) cloud
       = Ok i_above /\
       n_capturable m (live m) cloud i_above = Ok capturable /\
       ((0 <= capturable)%Q ->
        ((capturable <= 512)%Q -> (8 == capturable)%Q) /\
        ((512 < capturable)%Q -> (8 == 512)%Q))).
Proof.
  intros m m'.
  assert (H : n_electrons_captured m 512 = Ok (8%Q, m')) by (vm_compute; reflexivity).
  split; [exact H |].
  exact (captured_is_least_of_free_and_capturable m m' 512 8 H).
Defined.

(** What a slice assignment does to the cells. *)
Lemma update_slice_cells (a a' : list Q) (start size : Z) (f : Q -> Q) :
  update_slice a start size f = Ok a' ->
  (forall k, start <= k < start + size ->
     exists x, rd a k = Ok x /\ rd a' k = Ok (f x)) /\
  (forall k, ~ start <= k < start + size -> rd a' k = rd a k).
Proof.
  unfold update_slice. destruct (Z.ltb_spec size 0) as [| Hsize]; [discriminate |].
  intros H.
  set (Inv := fun (bound : Z) (cur : list Q) =>
    (forall k, start <= k < bound -> exists x, rd a k = Ok x /\ rd cur k = Ok (f x)) /\
    (forall k, ~ start <= k < bound -> rd cur k = rd a k)).
  assert (Hfinal : Inv (start + Z.of_nat (Z.to_nat size)) a').
  { refine (for_up_invariant Inv _ _ _ _ _ _ _ H).
    - intros j b b' Hj [Hdone Hrest] Hbody. ok_step Hbody as x Hx. split.
      + intros k Hk. rewrite (rd_wr _ _ _ k _ Hbody).
        destruct (Z.eqb_spec k j) as [-> | Hne].
        * exists x. split; [| reflexivity]. rewrite <- Hrest; [exact Hx | lia].
        * apply Hdone. lia.
      + intros k Hk. rewrite (rd_wr _ _ _ k _ Hbody).
        destruct (Z.eqb_spec k j) as [-> | Hne]; [lia |]. apply Hrest. lia.
    - split; [intros k Hk; lia | reflexivity]. }
  rewrite Z2Nat.id in Hfinal by lia. exact Hfinal.
Qed.

(** A slice of constants. *)
Lemma update_slice_constant (a a' : list Q) (start size k : Z) (c : Q) :
  update_slice a start size (fun _ => c) = Ok a' ->
  start <= k < start + size -> rd a' k = Ok c.
Proof.
  intros H Hk. apply update_slice_cells in H as [H _].
  destruct (H k Hk) as (x & _ & Hx). exact Hx.
Qed.

Lemma full_capture_lowest_watermark (m : TrapManager) (w w' : Watermarks)
    (cloud : Q) (i_above : Z) :
  full_capture m w cloud i_above = Ok w' ->
  (n_active_watermarks w = 0 -> i_first_active_wmk w = 0) ->
  rd (watermark_volumes w') (i_first_active_wmk w') = Ok cloud /\
  forall s, 0 <= s < n_traps m ->
    rd (watermark_fills w') (i_first_active_wmk w' * n_traps m + s) = Ok 1%Q.
Proof.
  unfold full_capture. intros H Hfirst.
  destruct (Z.eqb_spec (n_active_watermarks w) 0) as [Hzero | _].
  { ok_step H as volumes Hv. ok_step H as fills Hf. injection H as <-. simpl.
    rewrite (Hfirst Hzero). split.
    - rewrite (rd_wr _ _ _ 0 _ Hv). reflexivity.
    - intros s Hs. apply (update_slice_constant _ _ _ _ _ _ Hf). lia. }
  destruct (i_above =? i_first_active_wmk w).
  { ok_step H as w1 Hroom. cbv zeta in H. simpl in H.
    ok_step H as volumes Hv. ok_step H as fills Hf. ok_step H as v Hrd.
    ok_step H as volumes' Hv'. injection H as <-. simpl. split.
    - rewrite (rd_wr _ _ _ _ _ Hv').
      destruct (Z.eqb_spec (i_first_active_wmk w1) (i_first_active_wmk w1 + 1)); [lia |].
      rewrite (rd_wr _ _ _ _ _ Hv), Z.eqb_refl. reflexivity.
    - intros s Hs. apply (update_slice_constant _ _ _ _ _ _ Hf). lia. }
  destruct (i_above =? i_first_active_wmk w + n_active_watermarks w).
  { cbv zeta in H. simpl in H.
    ok_step H as volumes Hv. ok_step H as fills Hf. injection H as <-. simpl. split.
    - rewrite (rd_wr _ _ _ _ _ Hv), Z.eqb_refl. reflexivity.
    - intros s Hs. apply (update_slice_constant _ _ _ _ _ _ Hf). lia. }
  ok_step H as total Htotal. ok_step H as volumes Hv. cbv zeta in H. simpl in H.
  ok_step H as volumes' Hv'. ok_step H as fills Hf. injection H as <-. simpl. split.
  - rewrite (rd_wr _ _ _ _ _ Hv'), Z.eqb_refl. reflexivity.
  - intros s Hs. apply (update_slice_constant _ _ _ _ _ _ Hf). lia.
Qed.

(** X22: when the free electrons suffice to fill every trap up to the cloud,
    the capture leaves a lowest active watermark that has the volume of the
    cloud and whose traps are all full. *)
Theorem full_capture_fills_lowest_watermark
    (m m' : TrapManager) (n_free n_captured capturable : Q) (i_above : Z) :
  let cloud := cloud_fractional_volume_from_electrons (ccd m) n_free in
  ~ (cloud == 0)%Q ->
  watermark_index_above_cloud_from_volumes (live m) (watermark_volumes (live m)) cloud
  = Ok i_above ->
  n_capturable m (live m) cloud i_above = Ok capturable ->
  (0 <= capturable <= n_free)%Q ->
  (n_active_watermarks (live m) = 0 -> i_first_active_wmk (live m) = 0) ->
  n_electrons_captured m n_free = Ok (n_captured, m') ->
  n_captured = capturable /\
  rd (watermark_volumes (live m')) (i_first_active_wmk (live m')) = Ok cloud /\
  forall s, 0 <= s < n_traps m ->
    rd (watermark_fills (live m')) (i_first_active_wmk (live m') * n_traps m + s) = Ok 1%Q.
Proof.
  intros cloud Hcloud Hindex Hcap [Hpos Hle] Hfirst H.
  unfold n_electrons_captured in H. fold cloud in H.
  destruct (Qeq_bool cloud 0) eqn:E; [apply Qeq_bool_iff in E; contradiction |].
  rewrite Hindex in H. cbn [bind] in H. rewrite Hcap in H. cbn [bind] in H.
  assert (Hfull : at_least_one (divide n_free capturable) = true).
  { revert H. unfold divide. destruct (Qeq_bool capturable 0) eqn:Hzero.
    - apply Qeq_bool_iff in Hzero.
      destruct (Qlt_bool 0 n_free) eqn:Hfree; [reflexivity |].
      destruct (Qlt_bool n_free 0) eqn:Hneg; [| discriminate].
      apply Qlt_bool_iff in Hneg. lra.
    - intros _. assert (Hne : ~ (capturable == 0)%Q).
      { intros E'. apply Qeq_bool_iff in E'. congruence. }
      cbn [at_least_one]. apply Qle_bool_iff. unfold double_div. rewrite Qred_correct.
      apply (Qmult_le_r _ _ capturable); [lra |].
      assert (E' : (n_free / capturable * capturable == n_free)%Q) by (field; exact Hne).
      rewrite E'. lra. }
  rewrite Hfull in H. ok_step H as w Hw. injection H as <- <-.
  split; [reflexivity |]. exact (full_capture_lowest_watermark _ _ _ _ _ Hw Hfirst).
Qed.

Lemma full_capture_fills_lowest_watermark_witness :
  let m := set_live (manager_16 4) after_512_252_765_released in
  let m' := set_live (manager_16 4) after_512_252_765_890 in
  let cloud := cloud_fractional_volume_from_electrons (ccd m) 896 in
  n_electrons_captured m 896 = Ok (7%Q, m') /\
  7%Q = 7%Q /\
  rd (watermark_volumes (live m')) (i_first_active_wmk (live m')) = Ok cloud /\
  forall s, 0 <= s < n_traps m ->
    rd (watermark_fills (live m')) (i_first_active_wmk (live m') * n_traps m + s) = Ok 1%Q.
Proof.
  intros m m' cloud.
  assert (H : n_electrons_captured m 896 = Ok (7%Q, m')) by (vm_compute; reflexivity).
  split; [exact H |].
  apply (full_capture_fills_lowest_watermark m m' 896 7 7 1).
  - vm_compute. discriminate.
  - vm_compute. reflexivity.
  - vm_compute. reflexivity.
  - split; vm_compute; discriminate.
  - vm_compute. discriminate.
  - exact H.
Defined.

(** The electrons that the first capture can take, and those trapped after
    a first capture that fills the traps to [fill]. *)
Lemma n_capturable_first (m : TrapManager) (cloud capturable : Q) :
  i_first_active_wmk (live m) = 0 ->
  (forall s, 0 <= s < n_traps m -> rd (watermark_fills (live m)) s = Ok 0%Q) ->
  n_capturable m (live m) cloud 0 = Ok capturable ->
  (capturable
   == sum_from (length (traps m)) 0 (fun s => cell (map density (traps m)) s) * cloud)%Q.
Proof.
  intros Hi0 Hempty H. unfold n_capturable in H. rewrite Hi0 in H.
  change (Z.to_nat (0 - 0 + 1)) with 1%nat in H. cbn [for_up] in H.
  ok_step H as [n_captured next] Hbody. injection H as <-.
  ok_step Hbody as [n1 next1] Hstep. injection Hbody as <- _.
  ok_step Hstep as v Hv. ok_step Hstep as this Hinner.
  change (0 =? 0) with true in Hstep. cbv iota in Hstep. injection Hstep as <- _.
  apply (for_up_sum _ _ _ (fun s => cell (map density (traps m)) s)) in Hinner.
  - unfold double_add. rewrite Qred_correct, Hinner. ring.
  - intros s a a' Hs Hterm. cbv beta in Hterm. fold (n_traps m) in Hs.
    ok_step Hterm as f Hf. ok_step Hterm as d Hd. injection Hterm as <-.
    rewrite Z.mul_0_l, Z.add_0_l, Hempty in Hf by lia. injection Hf as <-.
    unfold density_at in Hd. rewrite (cell_rd _ _ _ Hd).
    unfold double_add. rewrite Qred_correct. ring.
Qed.

Lemma n_trapped_electrons_first (m : TrapManager) (w' : Watermarks) (cloud fill t : Q) :
  n_active_watermarks w' = 1 -> i_first_active_wmk w' = 0 ->
  rd (watermark_volumes w') 0 = Ok cloud ->
  (forall s, 0 <= s < n_traps m -> rd (watermark_fills w') s = Ok fill) ->
  n_trapped_electrons (set_live m w') = Ok t ->
  (t == sum_from (length (traps m)) 0 (fun s => cell (map density (traps m)) s)
        * cloud * fill)%Q.
Proof.
  intros Hn Hi0 Hv Hf H. unfold n_trapped_electrons in H.
  apply n_trapped_electrons_from_watermarks_sum in H. rewrite H.
  unfold trapped_sum. cbv zeta.
  change (n_traps (set_live m w')) with (n_traps m).
  cbn [live set_live traps]. rewrite Hn, Hi0.
  change (Z.to_nat 1) with 1%nat. cbn [sum_from].
  rewrite !sum_from_mul_r. apply sum_from_ext. intros s Hs. cbv beta.
  fold (n_traps m) in Hs.
  replace (0 * n_traps m + s + 0 * n_traps m) with s by lia.
  rewrite (cell_rd _ _ _ (Hf s ltac:(lia))). change (0 + 0) with 0.
  rewrite (cell_rd _ _ _ Hv). ring.
Qed.

(** X23: the first capture of a manager whose lowest watermark is empty
    conserves the electrons: those trapped after it are the captured
    ones. *)
Theorem first_capture_conserves_electrons
    (m m' : TrapManager) (n_free n_captured trapped : Q) :
  n_active_watermarks (live m) = 0 -> i_first_active_wmk (live m) = 0 ->
  (forall s, 0 <= s < n_traps m -> rd (watermark_fills (live m)) s = Ok 0%Q) ->
  n_electrons_captured m n_free = Ok (n_captured, m') ->
  n_trapped_electrons m' = Ok trapped ->
  (trapped == n_captured)%Q.
Proof.
  intros Hn Hi0 Hempty H Ht. unfold n_electrons_captured in H.
  set (cloud := cloud_fractional_volume_from_electrons (ccd m) n_free) in *.
  destruct (Qeq_bool cloud 0).
  { injection H as <- <-. unfold n_trapped_electrons, n_trapped_electrons_from_watermarks in Ht.
    cbv zeta in Ht. rewrite Hn in Ht. by injection Ht as <-. }
  unfold watermark_index_above_cloud_from_volumes in H. rewrite Hn in H.
  change (Z.to_nat 0) with 0%nat in H. cbn [index_search bind] in H.
  ok_step H as capturable Hcap.
  apply (n_capturable_first _ _ _ Hi0 Hempty) in Hcap.
  pose proof (n_traps_nonneg m) as HN.
  destruct (at_least_one (divide n_free capturable)).
  - ok_step H as w' Hfull. injection H as <- <-.
    unfold full_capture in Hfull. rewrite Hn in Hfull.
    change (0 =? 0) with true in Hfull. cbv iota in Hfull.
    ok_step Hfull as volumes Hv. ok_step Hfull as fills Hf. injection Hfull as <-.
    apply (n_trapped_electrons_first m _ cloud 1) in Ht.
    + rewrite Ht, Hcap. ring.
    + reflexivity.
    + exact Hi0.
    + cbn [watermark_volumes set_n_active set_fills set_volumes].
      rewrite (rd_wr _ _ _ 0 _ Hv). reflexivity.
    + intros s Hs. cbn [watermark_fills set_n_active set_fills set_volumes].
      apply (update_slice_constant _ _ _ _ _ _ Hf). lia.
  - destruct (divide n_free capturable) as [enough | | |]; try discriminate.
    ok_step H as w' Hpart. injection H as <- <-.
    unfold partial_capture in Hpart. rewrite Hn in Hpart.
    change (0 =? 0) with true in Hpart. cbv iota in Hpart.
    ok_step Hpart as volumes Hv. ok_step Hpart as fills Hf. injection Hpart as <-.
    apply (n_trapped_electrons_first m _ cloud enough) in Ht.
    + rewrite Ht. unfold double_mul. rewrite Qred_correct, Hcap. ring.
    + reflexivity.
    + exact Hi0.
    + cbn [watermark_volumes set_n_active set_fills set_volumes].
      rewrite (rd_wr _ _ _ 0 _ Hv). reflexivity.
    + intros s Hs. cbn [watermark_fills set_n_active set_fills set_volumes].
      apply (update_slice_constant _ _ _ _ _ _ Hf). lia.
Qed.

Lemma first_capture_conserves_electrons_witness :
  let m := manager_16 4 in
  let m' := set_live (manager_16 4) after_512 in
  n_electrons_captured m 512 = Ok (8%Q, m') /\
  n_trapped_electrons m' = Ok 8%Q /\
  (8 == 8)%Q.
Proof.
  intros m m'.
  assert (H : n_electrons_captured m 512 = Ok (8%Q, m')) by (vm_compute; reflexivity).
  assert (Ht : n_trapped_electrons m' = Ok 8%Q) by (vm_compute; reflexivity).
  split; [exact H |]. split; [exact Ht |].
  apply (first_capture_conserves_electrons m m' 512 8 8); try assumption.
  - reflexivity.
  - reflexivity.
  - intros s Hs. change (n_traps m) with 1 in Hs. replace s with 0 by lia. reflexivity.
Defined.

(** ** A partial capture below the stack *)

(** X28: a partial capture below all active watermarks, when watermarks have
    been skipped ([i_first_active_wmk > 0]), makes the skipped cell below the
    window the new lowest watermark without copying the fills of the old
    lowest one into it: the new fill is the stale fill of the skipped cell,
    moved the fraction [enough = n_free / n_captured] of the way to 1. *)
Theorem capture_below_blends_skipped_fill
    (m m' : TrapManager) (n_free n_captured capturable : Q) :
  let cloud := cloud_fractional_volume_from_electrons (ccd m) n_free in
  let w := live m in
  ~ (cloud == 0)%Q ->
  n_active_watermarks w <> 0 -> 0 < i_first_active_wmk w ->
  watermark_index_above_cloud_from_volumes w (watermark_volumes w) cloud
  = Ok (i_first_active_wmk w) ->
  n_capturable m w cloud (i_first_active_wmk w) = Ok capturable ->
  (0 < capturable)%Q -> (n_free < capturable)%Q ->
  n_electrons_captured m n_free = Ok (n_captured, m') ->
  i_first_active_wmk (live m') = i_first_active_wmk w - 1 /\
  n_active_watermarks (live m') = n_active_watermarks w + 1 /\
  forall s, 0 <= s < n_traps m ->
    exists stale fill,
      rd (watermark_fills w) ((i_first_active_wmk w - 1) * n_traps m + s) = Ok stale /\
      rd (watermark_fills (live m')) ((i_first_active_wmk w - 1) * n_traps m + s) = Ok fill /\
      (fill == stale * (1 - n_free / capturable) + n_free / capturable)%Q.
Proof.
  intros cloud w Hcloud Hactive Hfirst Hindex Hcap Hpos Hless H.
  unfold n_electrons_captured in H. fold cloud w in H.
  destruct (Qeq_bool cloud 0) eqn:E; [apply Qeq_bool_iff in E; contradiction |].
  rewrite Hindex in H. cbn [bind] in H. rewrite Hcap in H. cbn [bind] in H.
  assert (Hne : ~ (capturable == 0)%Q) by lra.
  assert (Hdiv : ((n_free / capturable)%D == n_free / capturable)%Q) by apply Qred_correct.
  unfold divide in H.
  destruct (Qeq_bool capturable 0) eqn:Hzero; [apply Qeq_bool_iff in Hzero; contradiction |].
  cbn [at_least_one] in H.
  destruct (Qle_bool 1 (n_free / capturable)%D) eqn:Hone.
  { exfalso. apply Qle_bool_iff in Hone. rewrite Hdiv in Hone.
    apply (Qmult_le_r _ _ capturable Hpos) in Hone.
    assert (E' : (n_free / capturable * capturable == n_free)%Q) by (field; exact Hne).
    rewrite E' in Hone. lra. }
  ok_step H as w' Hpart. injection H as _ <-.
  unfold partial_capture in Hpart.
  destruct (Z.eqb_spec (n_active_watermarks w) 0) as [| _]; [contradiction |].
  rewrite Z.eqb_refl in Hpart.
  ok_step Hpart as w1 Hroom. unfold make_room_below in Hroom.
  destruct (Z.ltb_spec 0 (i_first_active_wmk w)) as [_ |]; [| lia].
  injection Hroom as <-. cbv zeta in Hpart. simpl in Hpart.
  ok_step Hpart as volumes Hv. ok_step Hpart as fills Hf. ok_step Hpart as v Hrd.
  ok_step Hpart as volumes' Hv'. injection Hpart as <-. simpl.
  split; [reflexivity |]. split; [reflexivity |].
  intros s Hs. apply update_slice_cells in Hf as [Hf _].
  destruct (Hf ((i_first_active_wmk w - 1) * n_traps m + s)) as (stale & Hstale & Hfill);
    [lia |].
  exists stale. eexists. split; [exact Hstale |]. split; [exact Hfill |].
  unfold double_add. rewrite Qred_correct, Hdiv. ring.
Qed.

Lemma capture_below_blends_skipped_fill_witness :
  let m := set_live (manager_8192 6) after_five_transfers_released in
  let m' := set_live (manager_8192 6) after_five_transfers_431 in
  n_electrons_captured m 575 = Ok (575%Q, m') /\
  i_first_active_wmk (live m') = i_first_active_wmk (live m) - 1 /\
  n_active_watermarks (live m') = n_active_watermarks (live m) + 1 /\
  forall s, 0 <= s < n_traps m ->
    exists stale fill,
      rd (watermark_fills (live m)) ((i_first_active_wmk (live m) - 1) * n_traps m + s)
      = Ok stale /\
      rd (watermark_fills (live m')) ((i_first_active_wmk (live m) - 1) * n_traps m + s)
      = Ok fill /\
      (fill == stale * (1 - 575 / (2331 # 4)) + 575 / (2331 # 4))%Q.
Proof.
  intros m m'.
  assert (H : n_electrons_captured m 575 = Ok (575%Q, m')) by (vm_compute; reflexivity).
  split; [exact H |].
  apply (capture_below_blends_skipped_fill m m' 575 575 (2331 # 4)).
  - vm_compute. discriminate.
  - vm_compute. discriminate.
  - vm_compute. reflexivity.
  - vm_compute. reflexivity.
  - vm_compute. reflexivity.
  - reflexivity.
  - reflexivity.
  - exact H.
Defined.

(** The sixth transfer of the run: 431 electrons are reported as captured
    on balance, and the traps gain 322009/740, about 435.15: the fill
    117/160 of the skipped cell counts as electrons that were never
    captured. *)
Lemma skipped_fill_adds_electrons :
  let m := set_live (manager_8192 6) after_five_transfers in
  let m' := set_live (manager_8192 6) after_five_transfers_431 in
  observe (transfers [544; 448; 336; 0; 0]%Q (manager_8192 6))
  = Ok ([-512; -448; -64; 256; 192]%Q, after_five_transfers) /\
  n_electrons_released_and_captured m 431 = Ok ((-431)%Q, m') /\
  n_trapped_electrons m = Ok 576%Q /\
  n_trapped_electrons m' = Ok (748249 # 740)%Q /\
  ((748249 # 740) - 576 == 322009 # 740)%Q.
Proof.
  intros m m'. repeat split; vm_compute; reflexivity.
Qed.

(** ** The first capture returns *)

Lemma update_slice_returns (a : list Q) (start size : Z) (f : Q -> Q) :
  0 <= start -> 0 <= size -> start + size <= Z.of_nat (length a) ->
  exists a', update_slice a start size f = Ok a'.
Proof.
  intros Hstart Hsize Hlen. unfold update_slice.
  destruct (Z.ltb_spec size 0) as [| _]; [lia |].
  match goal with
  | |- context [for_up ?n ?i ?body ?s0] =>
      destruct (for_up_returns (fun _ (b : list Q) => length b = length a) body n i s0)
        as (a' & Ha' & _)
  end.
  - intros j b Hj Hb. cbv beta.
    destruct (rd_returns b j) as [x ->]; [lia |]. cbn [bind].
    destruct (wr_returns b j (f x)) as (b' & -> & Hb'); [lia |].
    exists b'. split; [reflexivity | congruence].
  - reflexivity.
  - eauto.
Qed.

(** X27: on a manager with no active watermark, [i_first_active_wmk = 0] and
    arrays that hold at least one watermark, the capture of a positive
    number of free electrons makes no access outside the arrays, meets no
    quotient that is not a number, and returns. *)
Theorem first_capture_returns (m : TrapManager) (n_free : Q) :
  n_active_watermarks (live m) = 0 -> i_first_active_wmk (live m) = 0 ->
  1 <= Z.of_nat (length (watermark_volumes (live m))) ->
  n_traps m <= Z.of_nat (length (watermark_fills (live m))) ->
  (0 < n_free)%Q ->
  exists n_captured m', n_electrons_captured m n_free = Ok (n_captured, m').
Proof.
  intros Hn Hi0 Hv Hf Hfree. unfold n_electrons_captured.
  set (cloud := cloud_fractional_volume_from_electrons (ccd m) n_free).
  destruct (Qeq_bool cloud 0); [eauto |].
  unfold watermark_index_above_cloud_from_volumes. rewrite Hn.
  change (Z.to_nat 0) with 0%nat. cbn [index_search bind].
  pose proof (n_traps_nonneg m) as HN.
  assert (Hcap : exists capturable, n_capturable m (live m) cloud 0 = Ok capturable).
  { unfold n_capturable. rewrite Hi0. change (Z.to_nat (0 - 0 + 1)) with 1%nat.
    cbn [for_up].
    destruct (rd_returns (watermark_volumes (live m)) 0) as [v ->]; [lia |]. cbn [bind].
    match goal with
    | |- context [for_up ?n ?i ?body ?s0] =>
        destruct (for_up_returns (fun _ (_ : Q) => True) body n i s0) as (this & -> & _)
    end.
    - intros s acc Hs _. fold (n_traps m) in Hs. cbv beta.
      destruct (rd_returns (watermark_fills (live m)) (0 * n_traps m + s)) as [f ->];
        [lia |].
      destruct (density_at_returns (traps m) s) as [d ->]; [unfold n_traps in Hs; lia |].
      cbn [bind]. eauto.
    - exact I.
    - cbn [bind]. change (0 =? 0) with true. cbv iota. cbn [bind]. eauto. }
  destruct Hcap as [capturable ->]. cbn [bind].
  assert (Hfull : exists w, full_capture m (live m) cloud 0 = Ok w).
  { unfold full_capture. rewrite Hn. change (0 =? 0) with true. cbv iota.
    destruct (wr_returns (watermark_volumes (live m)) 0 cloud) as (volumes & -> & _);
      [lia |].
    cbn [bind].
    destruct (update_slice_returns (watermark_fills (live m)) 0 (n_traps m) (fun _ => 1%Q))
      as [fills ->]; try lia.
    cbn [bind]. eauto. }
  assert (Hpart : forall enough, exists w, partial_capture m (live m) cloud 0 enough = Ok w).
  { intros enough. unfold partial_capture. rewrite Hn. change (0 =? 0) with true. cbv iota.
    destruct (wr_returns (watermark_volumes (live m)) 0 cloud) as (volumes & -> & _);
      [lia |].
    cbn [bind].
    destruct (update_slice_returns (watermark_fills (live m)) 0 (n_traps m)
                (fun _ => enough)) as [fills ->]; try lia.
    cbn [bind]. eauto. }
  destruct (at_least_one (divide n_free capturable)) eqn:Hone.
  - destruct Hfull as [w ->]. cbn [bind]. eauto.
  - unfold divide in *. destruct (Qeq_bool capturable 0).
    + apply Qlt_bool_iff in Hfree. rewrite Hfree in Hone. discriminate.
    + destruct (Hpart (n_free / capturable)%D) as [w ->]. cbn [bind]. eauto.
Qed.

Lemma first_capture_returns_witness :
  exists n_captured m', n_electrons_captured (manager_16 4) 512 = Ok (n_captured, m').
Proof.
  apply (first_capture_returns (manager_16 4) 512).
  - reflexivity.
  - reflexivity.
  - simpl. lia.
  - change (n_traps (manager_16 4)) with 1. simpl. lia.
  - reflexivity.
Defined.

(** ** Transfers on a manager without active watermarks *)

Lemma set_live_same (m : TrapManager) : set_live m (set_fills (live m) (watermark_fills (live m))) = m.
Proof. destruct m as [ts mt c nw n p [v f na i0] s]. reflexivity. Qed.

(** X24: on a manager without active watermarks, a packet whose cloud has
    the volume zero is transferred unchanged: the transfer returns 0 and
    leaves the manager as it is. *)
Theorem transfer_of_empty_cloud_changes_nothing (m : TrapManager) (n_free : Q) :
  n_active_watermarks (live m) = 0 ->
  (cloud_fractional_volume_from_electrons (ccd m) (n_free + 0)%D == 0)%Q ->
  n_electrons_released_and_captured m n_free = Ok (0%Q, m).
Proof.
  intros Hn Hcloud. unfold n_electrons_released_and_captured, n_electrons_released.
  cbv zeta. rewrite Hn. change (Z.to_nat 0) with 0%nat. cbn [for_up bind].
  rewrite set_live_same.
  unfold n_electrons_captured. apply Qeq_bool_iff in Hcloud. rewrite Hcloud.
  reflexivity.
Qed.

Lemma transfer_of_empty_cloud_changes_nothing_witness :
  n_electrons_released_and_captured (manager_16 4) 0 = Ok (0%Q, manager_16 4).
Proof.
  apply (transfer_of_empty_cloud_changes_nothing (manager_16 4) 0).
  - reflexivity.
  - vm_compute. reflexivity.
Defined.

(** ** The index above the cloud, an example *)

Lemma watermark_index_above_cloud_spec_witness :
  let w := after_256_384_448 in
  watermark_index_above_cloud_from_volumes w [] (3 # 8) = Ok 1 /\
  ((active w 1 /\ reaches_above w (3 # 8) 1 /\
    forall k, active w k -> k < 1 -> ~ reaches_above w (3 # 8) k) \/
   (1 = n_active_watermarks w /\ forall k, active w k -> ~ reaches_above w (3 # 8) k)).
Proof.
  intros w.
  assert (H : watermark_index_above_cloud_from_volumes w [] (3 # 8) = Ok 1)
    by (vm_compute; reflexivity).
  split; [exact H |]. exact (watermark_index_above_cloud_spec w [] (3 # 8) 1 H).
Defined.

(** ** The fill probabilities as probabilities *)

Lemma exp_of_nonpositive (x : R) : (0 <= x)%R -> (0 < exp (- x) <= 1)%R.
Proof.
  intros Hx. split; [apply exp_pos |].
  destruct (Req_dec x 0) as [-> | Hne].
  - rewrite Ropp_0, exp_0. lra.
  - rewrite <- exp_0. left. apply exp_increasing. lra.
Qed.

(** X25: for rates that are not negative, one of them positive, and a dwell
    time that is not negative, the four values stored for a species lie
    between 0 and 1, and the two release values add up to 1. *)
Theorem fill_probabilities_are_probabilities (ts : list Trap) (dwell_time : R)
    (i_trap : nat) (t : Trap) :
  ts !! i_trap = Some t ->
  (0 <= capture_rate t)%R -> (0 <= emission_rate t)%R ->
  (0 < capture_rate t + emission_rate t)%R -> (0 <= dwell_time)%R ->
  exists from_empty from_full from_release empty_from_release,
    entries (set_fill_probabilities_from_dwell_time ts dwell_time) i_trap
    = Some (from_empty, from_full, from_release, empty_from_release) /\
    (0 <= from_empty <= 1)%R /\ (0 <= from_full <= 1)%R /\
    (0 <= from_release <= 1)%R /\ (0 <= empty_from_release <= 1)%R /\
    (from_release + empty_from_release = 1)%R.
Proof.
  intros Ht Hc He Htotal Hd.
  assert (Hentries : entries (set_fill_probabilities_from_dwell_time ts dwell_time) i_trap
                     = Some (probabilities_of t dwell_time)).
  { unfold set_fill_probabilities_from_dwell_time.
    apply (set_probabilities_loop_at ts 0 i_trap); [exact Ht |].
    unfold lengths_at_least; simpl. rewrite !length_replicate. lia. }
  unfold probabilities_of in Hentries. cbv zeta in Hentries.
  set (total_rate := (capture_rate t + emission_rate t)%R) in *.
  set (x := exp (- total_rate * dwell_time)) in *.
  set (y := exp (- emission_rate t * dwell_time)) in *.
  assert (Hx : (0 < x <= 1)%R).
  { subst x. replace (- total_rate * dwell_time)%R with (- (total_rate * dwell_time))%R by ring.
    apply exp_of_nonpositive. nra. }
  assert (Hy : (0 < y <= 1)%R).
  { subst y. replace (- emission_rate t * dwell_time)%R
      with (- (emission_rate t * dwell_time))%R by ring.
    apply exp_of_nonpositive. nra. }
  assert (Hinv : (0 < / total_rate)%R) by (apply Rinv_0_lt_compat; exact Htotal).
  assert (Hone : (total_rate * / total_rate = 1)%R) by (apply Rinv_r; lra).
  set (q := (/ total_rate)%R) in *.
  assert (Hfactor : ((1 - x) / total_rate = (1 - x) * q)%R) by reflexivity.
  assert (Hcq : (0 <= capture_rate t * q <= 1)%R).
  { split; [nra |]. rewrite <- Hone. unfold total_rate. nra. }
  assert (Heq : (0 <= emission_rate t * q <= 1)%R).
  { split; [nra |]. rewrite <- Hone. unfold total_rate. nra. }
  eexists _, _, _, _. split; [exact Hentries |].
  rewrite Hfactor. repeat split; try lra.
  - destruct (Req_dec_T (capture_rate t) 0); [lra | nra].
  - destruct (Req_dec_T (capture_rate t) 0); [lra |].
    replace (capture_rate t * ((1 - x) * q))%R with ((capture_rate t * q) * (1 - x))%R by ring.
    nra.
  - replace (emission_rate t * ((1 - x) * q))%R with ((emission_rate t * q) * (1 - x))%R by ring.
    nra.
  - replace (emission_rate t * ((1 - x) * q))%R with ((emission_rate t * q) * (1 - x))%R by ring.
    nra.
Qed.

Lemma fill_probabilities_are_probabilities_witness :
  let t := instant_capture_trap 16 1%R in
  exists from_empty from_full from_release empty_from_release,
    entries (set_fill_probabilities_from_dwell_time [t] 1%R) 0%nat
    = Some (from_empty, from_full, from_release, empty_from_release) /\
    (0 <= from_empty <= 1)%R /\ (0 <= from_full <= 1)%R /\
    (0 <= from_release <= 1)%R /\ (0 <= empty_from_release <= 1)%R /\
    (from_release + empty_from_release = 1)%R.
Proof.
  intros t.
  apply (fill_probabilities_are_probabilities [t] 1%R 0%nat t eq_refl); simpl; lra.
Defined.
